(** * compas_rbe: interface identification on block assemblies

    A shallow embedding of [compas_rbe.interfaces.identify] and of
    [compas_rbe.datastructures.Assembly], with the properties of the
    interface identifier stated and proved over it.

    Numbers.  The Python code computes in double precision.  Here every
    number is a rational ([Q]) and arithmetic is exact, so the development
    covers the control flow of the code: which comparisons it makes
    ([area >= amin], [fabs(t) > tmax], [area == 0.0]), which calls can
    raise, and what is written to the assembly.  The rounding of the
    double-precision routines is not modelled, and nothing below is a
    statement about the digits of a computed coordinate.  Equality of
    numbers is [Qeq] ([==]).

    Libraries.  numpy/scipy ([solve]), compas ([Network],
    [global_coords_numpy]) are modelled by what they compute on the values
    the code passes them; shapely (the polygon engine) and scipy's
    [cKDTree] (the spatial index) are interfaces the identifier is
    parametrised by, with one executable instance of each given below. *)

From Stdlib Require Import QArith Qabs Lqa Qfield.
From stdpp Require Import gmap strings list fin_maps.

(** * Exceptions and results *)

Inductive exn : Type :=
| LinAlgError   (* scipy.linalg.solve on a singular matrix *)
| KeyError      (* a dict lookup with a missing key *)
| IndexError    (* a list index out of range *)
| ValueError    (* a value numpy, scipy or shapely refuses *)
| AttributeError      (* an attribute the object does not have *)
| TopologicalError.   (* shapely, on a geometry GEOS cannot process *)

Inductive result (A : Type) : Type :=
| Ok (x : A)
| Error (e : exn).
Arguments Ok {A} x.
Arguments Error {A} e.

Definition rbind {A B} (r : result A) (f : A -> result B) : result B :=
  match r with
  | Ok x => f x
  | Error e => Error e
  end.

Definition of_option {A} (o : option A) : result A :=
  match o with
  | Some x => Ok x
  | None => Error KeyError
  end.

Fixpoint rmap {A B} (f : A -> result B) (l : list A) : result (list B) :=
  match l with
  | [] => Ok []
  | x :: r =>
      rbind (f x) (fun y => rbind (rmap f r) (fun ys => Ok (y :: ys)))
  end.

(** * Geometry primitives *)

Module Geometry.

(** A point or vector [[x, y, z]]. *)
Definition vec : Type := (Q * Q * Q)%type.

(** A frame basis [uvw = (u, v, w)]: [array(uvw)] has the rows [u], [v],
    [w], its transpose [A.T] has them as columns. *)
Definition basis : Type := (vec * vec * vec)%type.

Definition vx (p : vec) : Q := fst (fst p).
Definition vy (p : vec) : Q := snd (fst p).
Definition vz (p : vec) : Q := snd p.

Definition vadd (p q : vec) : vec :=
  (vx p + vx q, vy p + vy q, vz p + vz q)%Q.
Definition vsub (p q : vec) : vec :=
  (vx p - vx q, vy p - vy q, vz p - vz q)%Q.
Definition vscale (a : Q) (p : vec) : vec :=
  (a * vx p, a * vy p, a * vz p)%Q.

(** Componentwise equality of rationals. *)
Definition veq (p q : vec) : Prop :=
  (vx p == vx q /\ vy p == vy q /\ vz p == vz q)%Q.

(** Determinant of the matrix with columns [a], [b], [c]. *)
Definition det3 (a b c : vec) : Q :=
  (vx a * (vy b * vz c - vz b * vy c)
   - vx b * (vy a * vz c - vz a * vy c)
   + vx c * (vy a * vz b - vz a * vy b))%Q.

Definition det (uvw : basis) : Q :=
  let '(u, v, w) := uvw in det3 u v w.

(** The solution [x] of [A.T x = b], that is of
    [x1 * u + x2 * v + x3 * w = b], by Cramer's rule. *)
Definition solve1 (uvw : basis) (b : vec) : vec :=
  let '(u, v, w) := uvw in
  let d := det3 u v w in
  (det3 b v w / d, det3 u b w / d, det3 u v b / d)%Q.

(** [scipy.linalg.solve(A.T, B)] with the right-hand sides [B] given as the
    list of its columns: raises [LinAlgError] when the matrix is singular,
    and returns the columns of the solution otherwise.  The solution is the
    exact one; scipy returns its double-precision approximation. *)
Definition solve (uvw : basis) (bs : list vec) : result (list vec) :=
  if Qeq_bool (det uvw) 0 then Error LinAlgError
  else Ok (map (solve1 uvw) bs).

(** [solve(A.T, xyz - o).T.tolist()]: the coordinates of the points [xyz]
    in the frame with origin [o] and basis [uvw]. *)
Definition local_coords (o : vec) (uvw : basis) (xyz : list vec)
  : result (list vec) :=
  solve uvw (map (fun p => vsub p o) xyz).

(** [compas.geometry.global_coords_numpy(o, uvw, rst)]:
    [xyz = uvw.T . rst.T + o], one point [r * u + s * v + t * w + o] per
    row [[r, s, t]]. *)
Definition global1 (o : vec) (uvw : basis) (rst : vec) : vec :=
  let '(u, v, w) := uvw in
  vadd (vadd (vadd (vscale (vx rst) u) (vscale (vy rst) v))
             (vscale (vz rst) w)) o.

Definition global_coords_numpy (o : vec) (uvw : basis) (rst : list vec)
  : list vec :=
  map (global1 o uvw) rst.

(** [[x, y, 0.0] for x, y, z in coords]. *)
Definition flatten (p : vec) : vec := (vx p, vy p, 0%Q).

(** A point lies in the plane of the frame when it is the origin plus a
    combination of the two in-plane axes. *)
Definition coplanar (o : vec) (uvw : basis) (p : vec) : Prop :=
  let '(u, v, _) := uvw in
  exists a b : Q, veq p (vadd (vadd o (vscale a u)) (vscale b v)).

End Geometry.

Import Geometry.

(** * Attribute dictionaries *)

(** The values the code stores in vertex and edge attribute dicts. *)
Inductive value : Type :=
| VNone
| VBool (b : bool)
| VStr (s : string)
| VNum (q : Q)
| VPoint (p : vec)
| VPoints (ps : list vec)
| VBasis (uvw : basis).

Abbreviation attrs := (gmap string value).

(** [d.update(new)]: the entries of [new] win. *)
Definition update (d new : attrs) : attrs := new ∪ d.

(** [d or {}] for an optional dict argument. *)
Definition or_empty (d : option attrs) : attrs := default ∅ d.

(** Lookup in a dict kept as a list of items in iteration order. *)
Fixpoint assoc {A} (k : Z) (l : list (Z * A)) : option A :=
  match l with
  | [] => None
  | (k', x) :: r => if Z.eqb k' k then Some x else assoc k r
  end.

(** * Blocks

    [compas_rbe.datastructures.Block] is a compas [Mesh]; the identifier
    only reads it.  A block is given by its vertex coordinates, its faces
    (vertex-key loops, in the order [faces()] yields them), the result of
    [frames()] (in the order [items()] yields it) and of [centroid()]. *)

Record Block : Type := {
  block_vertex : gmap Z vec;
  block_face : list (Z * list Z);
  block_frames : list (Z * (vec * basis));
  block_centroid : vec;
}.

(** [block.vertices()] *)
Definition block_vertices (b : Block) : list Z :=
  map fst (map_to_list (block_vertex b)).

(** [block.vertex_coordinates(key)] *)
Definition block_vertex_coordinates (b : Block) (key : Z) : result vec :=
  of_option (block_vertex b !! key).

(** [block.face_vertices(fkey)] *)
Definition face_vertices (b : Block) (fkey : Z) : result (list Z) :=
  of_option (assoc fkey (block_face b)).

(** [block.face_coordinates(fkey)] *)
Definition face_coordinates (b : Block) (fkey : Z) : result (list vec) :=
  rbind (face_vertices b fkey) (rmap (block_vertex_coordinates b)).

(** * The assembly: a compas Network with a block registry *)

Record Assembly : Type := {
  vertex : list (Z * attrs);          (* [self.vertex], in iteration order *)
  edge : gmap Z (gmap Z attrs);       (* [self.edge[u][v]] *)
  max_int_key : Z;
  default_vertex_attributes : attrs;
  default_edge_attributes : attrs;
  blocks : gmap Z Block;
}.

Definition set_edge (a : Assembly) (e : gmap Z (gmap Z attrs)) : Assembly :=
  {| vertex := vertex a; edge := e; max_int_key := max_int_key a;
     default_vertex_attributes := default_vertex_attributes a;
     default_edge_attributes := default_edge_attributes a;
     blocks := blocks a |}.

Definition set_blocks (a : Assembly) (b : gmap Z Block) : Assembly :=
  {| vertex := vertex a; edge := edge a; max_int_key := max_int_key a;
     default_vertex_attributes := default_vertex_attributes a;
     default_edge_attributes := default_edge_attributes a;
     blocks := b |}.

(** The result of running a procedure that mutates the assembly: it
    returns, or it raises; either way the assembly is left as mutated so
    far. *)
Inductive outcome : Type :=
| Returned (a : Assembly)
| Raised (e : exn) (a : Assembly).

Definition final (r : outcome) : Assembly :=
  match r with
  | Returned a => a
  | Raised _ a => a
  end.

(** A [for] loop whose body mutates the assembly; an exception leaves the
    loop. *)
Fixpoint for_each {X} (body : X -> Assembly -> outcome) (xs : list X)
  (a : Assembly) : outcome :=
  match xs with
  | [] => Returned a
  | x :: r =>
      match body x a with
      | Returned a' => for_each body r a'
      | Raised e a' => Raised e a'
      end
  end.

Module Network.

(** [self.vertices()] *)
Definition vertices (a : Assembly) : list Z := map fst (vertex a).

(** [key in self.vertex] *)
Definition in_vertex (a : Assembly) (key : Z) : bool :=
  bool_decide (key ∈ vertices a).

(** [self.vertex[key].update(attr)] *)
Fixpoint update_vertex (key : Z) (attr : attrs) (l : list (Z * attrs))
  : list (Z * attrs) :=
  match l with
  | [] => []
  | (k, d) :: r =>
      if Z.eqb k key then (k, update d attr) :: r
      else (k, d) :: update_vertex key attr r
  end.

(** [Network._get_vertex_key]: a fresh integer key when none is given;
    the largest integer key seen is remembered. *)
Definition get_vertex_key (a : Assembly) (key : option Z) : Z * Z :=
  match key with
  | None => (max_int_key a + 1, max_int_key a + 1)%Z
  | Some k => (k, if Z.ltb (max_int_key a) k then k else max_int_key a)
  end.

(** [Network.add_vertex(key=None, attr_dict=None, **kwattr)]: the new
    vertex gets a copy of the default vertex attributes, updated with
    [attr_dict], then with the keyword attributes. *)
Definition add_vertex (a : Assembly) (key : option Z)
  (attr_dict : option attrs) (kwattr : attrs) : Z * Assembly :=
  let attr :=
    update (update (default_vertex_attributes a) (or_empty attr_dict))
           kwattr in
  let '(k, mx) := get_vertex_key a key in
  let present := in_vertex a k in
  let vtx := if present then vertex a else vertex a ++ [(k, ∅)] in
  let edg := if present then edge a else <[k := ∅]> (edge a) in
  (k, {| vertex := update_vertex k attr vtx; edge := edg;
         max_int_key := mx;
         default_vertex_attributes := default_vertex_attributes a;
         default_edge_attributes := default_edge_attributes a;
         blocks := blocks a |}).

(** [Network.vertex_coordinates(key)]: the attributes [x], [y], [z]. *)
Definition as_num (v : option value) : result Q :=
  match v with
  | Some (VNum q) => Ok q
  | Some _ => Error ValueError
  | None => Error KeyError
  end.

Definition vertex_coordinates (a : Assembly) (key : Z) : result vec :=
  rbind (of_option (assoc key (vertex a))) (fun d =>
  rbind (as_num (d !! "x")) (fun x =>
  rbind (as_num (d !! "y")) (fun y =>
  rbind (as_num (d !! "z")) (fun z => Ok (x, y, z))))).

(** [u in self.edge and v in self.edge[u]] *)
Definition has_edge (a : Assembly) (u v : Z) : bool :=
  match edge a !! u with
  | Some nb => bool_decide (is_Some (nb !! v))
  | None => false
  end.

(** [self.edge[u][v]], if the edge is there. *)
Definition edge_data (a : Assembly) (u v : Z) : option attrs :=
  edge a !! u ≫= (fun nb => nb !! v).

(** [Network.add_edge(u, v, attr_dict=None, **kwattr)]: the edge data is a
    copy of the default edge attributes updated with the attributes
    given; missing end vertices are added; data already stored under
    [edge[u][v]] is updated in place. *)
Definition add_edge (a : Assembly) (u v : Z) (attr_dict : option attrs)
  (kwattr : attrs) : outcome :=
  let attr :=
    update (default_edge_attributes a)
           (update (or_empty attr_dict) kwattr) in
  let a1 := if in_vertex a u then a else snd (add_vertex a (Some u) None ∅) in
  let a2 := if in_vertex a1 v then a1 else snd (add_vertex a1 (Some v) None ∅) in
  match edge a2 !! u with
  | None => Raised KeyError a2
  | Some nb =>
      let data := update (default ∅ (nb !! v)) attr in
      Returned (set_edge a2 (<[u := <[v := data]> nb]> (edge a2)))
  end.

End Network.

Import Network.

(** * [compas_rbe.datastructures.Assembly] *)

(** The attribute defaults [Network.__init__] sets. *)
Definition network_default_vertex_attributes : attrs :=
  {[ "x" := VNum 0; "y" := VNum 0; "z" := VNum 0 ]}.

Definition network_default_edge_attributes : attrs := ∅.

(** [Assembly.__init__] *)
Definition Assembly_init : Assembly :=
  {| vertex := [];
     edge := ∅;
     max_int_key := -1;
     default_vertex_attributes :=
       update network_default_vertex_attributes
              {[ "is_support" := VBool false ]};
     default_edge_attributes :=
       update network_default_edge_attributes
              {[ "interface_points" := VNone;
                 "interface_type" := VNone;
                 "niterface_size" := VNone;
                 "interface_uvw" := VNone;
                 "interface_origin" := VNone;
                 "interface_forces" := VNone ]};
     blocks := ∅ |}.

(** The keyword arguments [x=x, y=y, z=z]. *)
Definition xyz_kwattr (c : vec) : attrs :=
  {[ "x" := VNum (vx c); "y" := VNum (vy c); "z" := VNum (vz c) ]}.

(** [Assembly.add_block(block, attr_dict=None, **kwattr)] *)
Definition add_block (self : Assembly) (block : Block)
  (attr_dict : option attrs) (kwattr : attrs) : Z * Assembly :=
  let attr := or_empty attr_dict in
  let attr := update attr kwattr in
  let c := block_centroid block in
  let '(key, self) := add_vertex self None (Some attr) (xyz_kwattr c) in
  (key, set_blocks self (<[key := block]> (blocks self))).

(** [Assembly.add_support(block, attr_dict=None, **kwattr)] *)
Definition add_support (self : Assembly) (block : Block)
  (attr_dict : option attrs) (kwattr : attrs) : Z * Assembly :=
  let c := block_centroid block in
  let '(key, self) :=
    add_vertex self None None
      (update (xyz_kwattr c) {[ "is_support" := VBool true ]}) in
  (key, set_blocks self (<[key := block]> (blocks self))).

(** * External engines

    The 2D polygon engine (shapely, on GEOS) and the spatial index (scipy's
    [cKDTree]) are used through these interfaces. *)

Class PolygonEngine : Type := {
  (** a shapely geometry: a polygon, or whatever an intersection is (a
      point, a line, a collection) *)
  geom : Type;
  (** [Polygon(coords)] from a list of [[x, y, z]] rows; raises on rows
      that make no ring *)
  Polygon : list vec -> result geom;
  (** [p.area] *)
  area : geom -> Q;
  (** [p.intersects(q)] *)
  intersects : geom -> geom -> result bool;
  (** [p.intersection(q)] *)
  intersection : geom -> geom -> result geom;
  (** [p.exterior.coords]: the boundary ring, closing point included;
      raises [AttributeError] when the geometry is not a polygon *)
  exterior_coords : geom -> result (list vec);
}.

Class SpatialIndex : Type := {
  tree : Type;
  (** what [tree.query] returns *)
  neighbours : Type;
  (** [cKDTree(cloud)] *)
  cKDTree : list vec -> result tree;
  (** [tree.query(root, k)]: distances and positions in the cloud of the
      [k] points nearest to [root] *)
  query : tree -> vec -> Z -> result neighbours;
  (** [(d.flatten().tolist(), n.flatten().tolist())] *)
  flatten_tolist : neighbours -> result (list Q * list nat);
}.

(** * [compas_rbe.interfaces.identify] *)

Record config : Type := {
  nmax : Z;
  tmax : Q;
  amin : Q;
  lmin : Q;
  face_face : bool;
  face_edge : bool;
  face_vertex : bool;
}.

(** The defaults of [identify_interfaces]. *)
Definition default_config : config :=
  {| nmax := 10; tmax := 1 # 1000000; amin := 1 # 10; lmin := 1 # 1000;
     face_face := true; face_edge := false; face_vertex := false |}.

(** The configuration with another [amin], another [lmin]. *)
Definition set_amin (x : Q) (cfg : config) : config :=
  {| nmax := nmax cfg; tmax := tmax cfg; amin := x; lmin := lmin cfg;
     face_face := face_face cfg; face_edge := face_edge cfg;
     face_vertex := face_vertex cfg |}.

Definition set_lmin (x : Q) (cfg : config) : config :=
  {| nmax := nmax cfg; tmax := tmax cfg; amin := amin cfg; lmin := x;
     face_face := face_face cfg; face_edge := face_edge cfg;
     face_vertex := face_vertex cfg |}.

(** [a > b] on rationals. *)
Definition Qgtb (a b : Q) : bool := negb (Qle_bool a b).

(** [any(fabs(t) > tmax for r, s, t in rst1)] *)
Definition off_plane (tmax : Q) (rst1 : list vec) : bool :=
  existsb (fun rst => Qgtb (Qabs (vz rst)) tmax) rst1.

(** The attribute dict of an accepted interface. *)
Definition interface_attr (ar : Q) (coords : list vec) (origin : vec)
  (uvw : basis) : attrs :=
  {[ "interface_type" := VStr "face_face";
     "interface_size" := VNum ar;
     "interface_points" := VPoints (removelast coords);
     "interface_origin" := VPoint origin;
     "interface_uvw" := VBasis uvw ]}.

Section Identify.

Context {PE : PolygonEngine} {SI : SpatialIndex}.

(** [_find_nearest_neighbours(cloud, nmax)] *)
Definition _find_nearest_neighbours (cloud : list vec) (nmax : Z)
  : result (list (list Q * list nat)) :=
  rbind (cKDTree cloud) (fun tree =>
  rbind (rmap (fun root => query tree root nmax) cloud) (fun nnbrs =>
  rmap flatten_tolist nnbrs)).

(** The body of [for f1 in nbr.faces()]: base block [k], neighbour [n],
    base frame [(origin, uvw)], base polygon [p0], local coordinates
    [rst] of the vertices of the neighbour. *)
Definition face_pair (cfg : config) (k n : Z) (origin : vec) (uvw : basis)
  (p0 : geom) (rst : gmap Z vec) (f1 : Z * list Z) (a : Assembly)
  : outcome :=
  match rmap (fun key => of_option (rst !! key)) (snd f1) with
  | Error e => Raised e a
  | Ok rst1 =>
      if off_plane (tmax cfg) rst1 then Returned a
      else
        match Polygon rst1 with
        | Error e => Raised e a
        | Ok p1 =>
            if Qeq_bool (area p1) 0 then Returned a
            else
              match intersects p0 p1 with
              | Error e => Raised e a
              | Ok false => Returned a
              | Ok true =>
                  match intersection p0 p1 with
                  | Error e => Raised e a
                  | Ok inter =>
                      let ar := area inter in
                      if Qle_bool (amin cfg) ar then
                        match exterior_coords inter with
                        | Error e => Raised e a
                        | Ok ring =>
                            let coords := map flatten ring in
                            let coords :=
                              global_coords_numpy origin uvw coords in
                            let attr :=
                              interface_attr ar coords origin uvw in
                            add_edge a k n (Some attr) ∅
                        end
                      else Returned a
                  end
              end
        end
  end.

(** The local coordinates of all vertices of the neighbour, keyed by
    vertex: [k_i], [xyz], [rst]. *)
Definition neighbour_coords (origin : vec) (uvw : basis) (nbr : Block)
  : result (gmap Z vec) :=
  let keys := block_vertices nbr in
  rbind (rmap (block_vertex_coordinates nbr) keys) (fun xyz =>
  rbind (local_coords origin uvw xyz) (fun rst =>
  Ok (list_to_map (zip keys rst)))).

(** The body of [for j in nbrs]. *)
Definition candidate (cfg : config) (index_key : list Z) (k : Z)
  (origin : vec) (uvw : basis) (p0 : geom) (j : nat) (a : Assembly)
  : outcome :=
  match index_key !! j with
  | None => Raised KeyError a
  | Some n =>
      if Z.eqb n k then Returned a
      else if has_edge a k n then Returned a
      else if has_edge a n k then Returned a
      else
        match blocks a !! n with
        | None => Raised KeyError a
        | Some nbr =>
            match neighbour_coords origin uvw nbr with
            | Error e => Raised e a
            | Ok rst =>
                for_each (face_pair cfg k n origin uvw p0 rst)
                         (block_face nbr) a
            end
        end
  end.

(** The body of [for f0, (origin, uvw) in frames.items()]. *)
Definition base_face (cfg : config) (index_key : list Z) (k : Z)
  (block : Block) (nbrs : list nat) (f0 : Z * (vec * basis))
  (a : Assembly) : outcome :=
  let '(f0, (origin, uvw)) := f0 in
  match rbind (face_coordinates block f0) (local_coords origin uvw) with
  | Error e => Raised e a
  | Ok rst0 =>
      match Polygon rst0 with
      | Error e => Raised e a
      | Ok p0 => for_each (candidate cfg index_key k origin uvw p0) nbrs a
      end
  end.

(** [{key: index for index, key in enumerate(keys)}] *)
Definition key_index (keys : list Z) : gmap Z nat :=
  list_to_map (reverse (zip keys (seq 0 (length keys)))).

(** The body of [for k in assembly.vertices()]; [print(k)] is left out. *)
Definition base_block (cfg : config) (keys : list Z)
  (block_nnbrs : list (list Q * list nat)) (k : Z) (a : Assembly)
  : outcome :=
  match key_index keys !! k with
  | None => Raised KeyError a
  | Some i =>
      match blocks a !! k with
      | None => Raised KeyError a
      | Some block =>
          match block_nnbrs !! i with
          | None => Raised IndexError a
          | Some (_, nbrs) =>
              let frames := block_frames block in
              if face_face cfg then
                for_each (base_face cfg keys k block nbrs) frames a
              else Returned a
          end
      end
  end.

(** [identify_interfaces(assembly, nmax, tmax, amin, lmin, face_face,
    face_edge, face_vertex)] *)
Definition identify_interfaces (assembly : Assembly) (cfg : config)
  : outcome :=
  let keys := vertices assembly in
  match rmap (fun key => of_option (blocks assembly !! key)) keys with
  | Error e => Raised e assembly
  | Ok blks =>
      let nmax := Z.min (nmax cfg) (Z.of_nat (length blks)) in
      match rmap (vertex_coordinates assembly) keys with
      | Error e => Raised e assembly
      | Ok block_cloud =>
          match _find_nearest_neighbours block_cloud nmax with
          | Error e => Raised e assembly
          | Ok block_nnbrs =>
              for_each (base_block cfg keys block_nnbrs) keys assembly
          end
      end
  end.

End Identify.

(** * An executable polygon engine for convex polygons

    Polygons are vertex rings in the plane; the intersection clips the
    first ring against every edge of the second (Sutherland-Hodgman), the
    area is the shoelace formula.  On convex polygons this computes what
    the polygon engine of the code is used for: an intersection without
    area (a point, a segment, nothing) is no polygon and has no exterior
    ring. *)

Module Convex.

Definition pt : Type := (Q * Q)%type.

(** The edges [(p_i, p_i+1)] of a ring, the closing edge included. *)
Definition edges (ring : list pt) : list (pt * pt) :=
  zip ring (rotate 1 ring).

(** Twice the signed area of the triangle [a], [b], [p]: positive when
    [p] is to the left of the edge from [a] to [b]. *)
Definition cross (a b p : pt) : Q :=
  ((fst b - fst a) * (snd p - snd a) - (snd b - snd a) * (fst p - fst a))%Q.

Definition signed_area2 (ring : list pt) : Q :=
  foldr (fun '(p, q) acc => (fst p * snd q - fst q * snd p + acc)%Q) 0%Q
        (edges ring).

Definition area (ring : list pt) : Q :=
  Qred (Qabs (signed_area2 ring) / 2).

Definition inside (a b p : pt) : bool := Qle_bool 0 (cross a b p).

(** The point where the segment from [s] to [e] meets the line through
    [a] and [b]. *)
Definition meet (a b s e : pt) : pt :=
  let ds := cross a b s in
  let de := cross a b e in
  let t := (ds / (ds - de))%Q in
  (Qred (fst s + t * (fst e - fst s)), Qred (snd s + t * (snd e - snd s))).

Definition clip_edge (subject : list pt) (ab : pt * pt) : list pt :=
  let '(a, b) := ab in
  flat_map (fun '(s, e) =>
    if inside a b e then
      if inside a b s then [e] else [meet a b s e; e]
    else
      if inside a b s then [meet a b s e] else [])
    (edges subject).

(** The ring in counter-clockwise order. *)
Definition ccw (ring : list pt) : list pt :=
  if Qle_bool 0 (signed_area2 ring) then ring else reverse ring.

Definition intersection (p q : list pt) : list pt :=
  foldl clip_edge p (edges (ccw q)).

Definition intersects (p q : list pt) : bool :=
  match intersection p q with
  | [] => false
  | _ :: _ => true
  end.

(** One or two rows make no ring. *)
Definition polygon (coords : list vec) : result (list pt) :=
  match coords with
  | [_] | [_; _] => Error ValueError
  | _ => Ok (map (fun p => (vx p, vy p)) coords)
  end.

Definition exterior_coords (ring : list pt) : result (list vec) :=
  if Qeq_bool (area ring) 0 then Error AttributeError
  else
    Ok (map (fun p => (fst p, snd p, 0%Q))
          (match ring with
           | [] => []
           | p :: _ => ring ++ [p]
           end)).

Definition engine : PolygonEngine :=
  Build_PolygonEngine (list pt) polygon area
    (fun p q => Ok (intersects p q)) (fun p q => Ok (intersection p q))
    exterior_coords.

End Convex.

(** * An executable spatial index: exhaustive search

    Distances are kept squared; equal distances keep the order of the
    cloud.  As with [cKDTree], an empty cloud and a neighbour count below
    one are refused with [ValueError], and the result for a single
    neighbour is a pair of scalars, which have no [flatten]. *)

Module BruteForce.

Definition dist2 (p q : vec) : Q :=
  let d := vsub p q in
  Qred (vx d * vx d + vy d * vy d + vz d * vz d).

Fixpoint insert_by (x : Q * nat) (l : list (Q * nat)) : list (Q * nat) :=
  match l with
  | [] => [x]
  | y :: r =>
      if Qle_bool (fst y) (fst x) then y :: insert_by x r else x :: y :: r
  end.

Definition sort (l : list (Q * nat)) : list (Q * nat) :=
  foldl (fun acc x => insert_by x acc) [] l.

Definition nearest (cloud : list vec) (root : vec) (k : Z)
  : list Q * list nat :=
  let ds := sort (zip (map (dist2 root) cloud) (seq 0 (length cloud))) in
  let top := take (Z.to_nat k) ds in
  (map fst top, map snd top).

Definition build (cloud : list vec) : result (list vec) :=
  match cloud with
  | [] => Error ValueError
  | _ :: _ => Ok cloud
  end.

Definition query (cloud : list vec) (root : vec) (k : Z)
  : result (Z * (list Q * list nat)) :=
  if Z.leb k 0 then Error ValueError else Ok (k, nearest cloud root k).

Definition flatten_tolist (r : Z * (list Q * list nat))
  : result (list Q * list nat) :=
  if Z.eqb (fst r) 1 then Error AttributeError else Ok (snd r).

Definition index : SpatialIndex :=
  Build_SpatialIndex (list vec) (Z * (list Q * list nat))
    build query flatten_tolist.

End BruteForce.

(** * Example assemblies *)

Module Examples.

(** The axis-aligned box from [(x0, y0, z0)] to [(x1, y1, z1)] as a block
    of eight vertices and six faces with outward normals; each frame has
    its origin at the face centre, its first axis along the first edge of
    the face and its third along the normal. *)
Definition box (x0 y0 z0 x1 y1 z1 : Q) : Block :=
  let xm := Qred ((x0 + x1) / 2) in
  let ym := Qred ((y0 + y1) / 2) in
  let zm := Qred ((z0 + z1) / 2) in
  {| block_vertex :=
       list_to_map
         [ (0, (x0, y0, z0)); (1, (x1, y0, z0)); (2, (x1, y1, z0));
           (3, (x0, y1, z0)); (4, (x0, y0, z1)); (5, (x1, y0, z1));
           (6, (x1, y1, z1)); (7, (x0, y1, z1)) ]%Z;
     block_face :=
       [ (0, [0; 3; 2; 1]); (1, [4; 5; 6; 7]); (2, [0; 1; 5; 4]);
         (3, [1; 2; 6; 5]); (4, [2; 3; 7; 6]); (5, [3; 0; 4; 7]) ]%Z;
     block_frames :=
       [ (0%Z, ((xm, ym, z0), ((0, 1, 0), (1, 0, 0), (0, 0, -1))));
         (1%Z, ((xm, ym, z1), ((1, 0, 0), (0, 1, 0), (0, 0, 1))));
         (2%Z, ((xm, y0, zm), ((1, 0, 0), (0, 0, 1), (0, -1, 0))));
         (3%Z, ((x1, ym, zm), ((0, 1, 0), (0, 0, 1), (1, 0, 0))));
         (4%Z, ((xm, y1, zm), ((-1, 0, 0), (0, 0, 1), (0, 1, 0))));
         (5%Z, ((x0, ym, zm), ((0, -1, 0), (0, 0, 1), (-1, 0, 0)))) ]%Q;
     block_centroid := (xm, ym, zm) |}.

(** Two unit cubes, the second resting on the first. *)
Definition cube0 : Block := box 0 0 0 1 1 1.
Definition cube1 : Block := box 0 0 1 1 1 2.

Definition stack2 : Assembly :=
  let a := Assembly_init in
  let a := snd (add_block a cube0 None ∅) in
  snd (add_block a cube1 None ∅).

(** The first cube with one more face listed first: the degenerate loop
    [0, 1, 0], whose frame has a zero normal. *)
Definition cube0_degenerate : Block :=
  {| block_vertex := block_vertex cube0;
     block_face := (6%Z, [0; 1; 0]%Z) :: block_face cube0;
     block_frames :=
       (6%Z, ((1 # 3, 0, 0), ((1, 0, 0), (0, 0, 0), (0, 0, 0))))%Q
       :: block_frames cube0;
     block_centroid := block_centroid cube0 |}.

Definition stack2_degenerate : Assembly :=
  let a := Assembly_init in
  let a := snd (add_block a cube0_degenerate None ∅) in
  snd (add_block a cube1 None ∅).

Definition run (a : Assembly) (cfg : config) : outcome :=
  @identify_interfaces Convex.engine BruteForce.index a cfg.

(** The interface the default pass finds between the two cubes. *)
Definition stack2_interface : attrs :=
  default ∅ (edge_data (final (run stack2 default_config)) 0 1).


(** The top face of the first cube as base face, the second cube as
    neighbour. *)
Definition top_origin : vec := (1 # 2, 1 # 2, 1)%Q.
Definition top_uvw : basis := ((1, 0, 0), (0, 1, 0), (0, 0, 1))%Q.
Definition top_p0 : list Convex.pt :=
  match rbind (rbind (face_coordinates cube0 1)
                     (local_coords top_origin top_uvw)) Convex.polygon
  with
  | Ok p0 => p0
  | Error _ => []
  end.

(** Configurations outside the ranges the specification allows. *)
Definition negative_amin : config := set_amin (-1) default_config.
Definition negative_tmax : config :=
  {| nmax := 10; tmax := - (1 # 1000000); amin := 1 # 10; lmin := 1 # 1000;
     face_face := true; face_edge := false; face_vertex := false |}.

(** Projected faces with a vertex exactly at the default tolerance, and
    with one just beyond it. *)
Definition at_tolerance : list vec :=
  [(0, 0, 1 # 1000000); (1, 0, - (1 # 1000000)); (0, 1, 0)]%Q.
Definition beyond_tolerance : list vec :=
  [(0, 0, 0); (1, 0, 0); (0, 1, 1000001 # 1000000000000)]%Q.

(** A neighbour face over the top face of the first cube, given by its
    local coordinates: a unit square with vertices exactly at the default
    tolerance off the plane, and the same with one vertex just beyond. *)
Definition square : Z * list Z := (0, [0; 1; 2; 3])%Z.
Definition square_at_tolerance : list vec :=
  [(- (1 # 2), - (1 # 2), 1 # 1000000); (1 # 2, - (1 # 2), 1 # 1000000);
   (1 # 2, 1 # 2, - (1 # 1000000)); (- (1 # 2), 1 # 2, 0)]%Q.
Definition square_beyond_tolerance : list vec :=
  [(- (1 # 2), - (1 # 2), 1 # 1000000); (1 # 2, - (1 # 2), 1 # 1000000);
   (1 # 2, 1 # 2, - (1000001 # 1000000000000)); (- (1 # 2), 1 # 2, 0)]%Q.
Definition rst_of (l : list vec) : gmap Z vec :=
  list_to_map (zip [0; 1; 2; 3]%Z l).
Definition square_p1 : list Convex.pt :=
  match Convex.polygon square_at_tolerance with
  | Ok p1 => p1
  | Error _ => []
  end.
Definition square_inter : list Convex.pt :=
  Convex.intersection top_p0 square_p1.
Definition square_ring : list vec :=
  match Convex.exterior_coords square_inter with
  | Ok ring => ring
  | Error _ => []
  end.

(** Attributes given when adding a block. *)
Definition name_attr : attrs := {[ "name" := VStr "B0" ]}.
Definition course_kwattr : attrs := {[ "course" := VNum 1 ]}.

(** The default configuration with the face-face test switched off. *)
Definition no_face_face : config :=
  {| nmax := 10; tmax := 1 # 1000000; amin := 1 # 10; lmin := 1 # 1000;
     face_face := false; face_edge := false; face_vertex := false |}.

(** An assembly of one cube. *)
Definition single : Assembly := snd (add_block Assembly_init cube0 None ∅).

(** Keyword attributes that name a coordinate. *)
Definition misplaced_kwattr : attrs :=
  {[ "x" := VNum 100; "is_support" := VBool true ]}.

(** The two cubes with the second one missing from the block registry. *)
Definition unregistered : Assembly :=
  set_blocks stack2 (delete 1%Z (blocks stack2)).





(** The second cube with its bottom face split in two: a strip of area
    1/4 and the rest, of area 3/4, both in the plane of the top face of
    the first cube. *)
Definition cube1_split : Block :=
  {| block_vertex :=
       <[8%Z := (1 # 4, 0, 1)%Q]> (<[9%Z := (1 # 4, 1, 1)%Q]>
         (block_vertex cube1));
     block_face :=
       (6%Z, [0; 3; 9; 8]%Z) :: (7%Z, [8; 9; 2; 1]%Z)
       :: tail (block_face cube1);
     block_frames := block_frames cube1;
     block_centroid := block_centroid cube1 |}.

Definition split_rst : gmap Z vec :=
  match @neighbour_coords top_origin top_uvw cube1_split with
  | Ok rst => rst
  | Error _ => ∅
  end.
Definition split_strip : Z * list Z := (6, [0; 3; 9; 8])%Z.
Definition split_rest : Z * list Z := (7, [8; 9; 2; 1])%Z.
Definition split_rest_rst1 : list vec :=
  match rmap (fun key => of_option (split_rst !! key)) (snd split_rest)
  with
  | Ok rst1 => rst1
  | Error _ => []
  end.
Definition split_rest_p1 : list Convex.pt :=
  match Convex.polygon split_rest_rst1 with
  | Ok p1 => p1
  | Error _ => []
  end.
Definition split_rest_inter : list Convex.pt :=
  Convex.intersection top_p0 split_rest_p1.
Definition split_rest_ring : list vec :=
  match Convex.exterior_coords split_rest_inter with
  | Ok ring => ring
  | Error _ => []
  end.

End Examples.

(** * Specification vocabulary *)

(** No pair of distinct blocks is connected in both directions.  (Two
    edges in the same direction cannot exist: [edge[u][v]] is one dict
    entry.) *)
Definition at_most_one (a : Assembly) : Prop :=
  ∀ u v, u ≠ v -> has_edge a u v = true -> has_edge a v u = false.

Definition no_edges (a : Assembly) : Prop :=
  ∀ u v, edge_data a u v = None.

(** An executable check of [no_edges]. *)
Definition no_edgesb (a : Assembly) : bool :=
  forallb (fun unb : Z * gmap Z attrs =>
             match map_to_list (snd unb) with
             | [] => true
             | _ :: _ => false
             end)
          (map_to_list (edge a)).

(** The five fields [identify_interfaces] writes. *)
Definition interface_fields : gset string :=
  {[ "interface_type"; "interface_size"; "interface_points";
     "interface_origin"; "interface_uvw" ]}.

(** A configuration the specification calls invalid. *)
Definition invalid_config (cfg : config) : Prop :=
  (nmax cfg <= 0)%Z ∨ (tmax cfg < 0)%Q ∨ (amin cfg < 0)%Q ∨ (lmin cfg < 0)%Q.

(** Every face of every registered block has at least one vertex. *)
Definition faces_nonempty (a : Assembly) : Prop :=
  ∀ n nbr f, blocks a !! n = Some nbr -> f ∈ block_face nbr -> snd f ≠ [].

(** The keys of a vertex that has nothing but its coordinates and the
    support flag. *)
Definition support_fields : gset string :=
  {[ "x"; "y"; "z"; "is_support" ]}.

Definition faces_nonemptyb (a : Assembly) : bool :=
  forallb (fun nb : Z * Block =>
             forallb (fun f : Z * list Z =>
                        match snd f with [] => false | _ :: _ => true end)
                     (block_face (snd nb)))
          (map_to_list (blocks a)).

(** Everything but the edges is the same in both assemblies. *)
Definition same_frame (s s' : Assembly) : Prop :=
  vertex s' = vertex s ∧ blocks s' = blocks s ∧
  default_edge_attributes s' = default_edge_attributes s ∧
  default_vertex_attributes s' = default_vertex_attributes s ∧
  max_int_key s' = max_int_key s.

(** [s'] has the vertices and blocks of [s] and at least its edges. *)
Definition ext (s s' : Assembly) : Prop :=
  vertex s' = vertex s ∧ blocks s' = blocks s ∧
  ∀ u v, has_edge s u v = true -> has_edge s' u v = true.

(** A step settles: when it returns, the assembly has grown, and on any
    assembly grown further the step returns at once, changing nothing.
    [V] are the vertex keys of the assemblies considered. *)
Definition settles (V : list Z) (body : Assembly -> outcome) : Prop :=
  ∀ s s', vertices s = V -> body s = Returned s' ->
    ext s s' ∧ ∀ s'', ext s' s'' -> body s'' = Returned s''.

Section Vocabulary.

Context {PE : PolygonEngine}.

(** The data of an edge written by [identify_interfaces]: the default edge
    attributes updated with the five interface fields of an intersection
    whose area reaches [amin]. *)
Definition accepted (cfg : config) (defaults d : attrs) : Prop :=
  ∃ (p0 p1 inter : geom) (ring : list vec) (origin : vec) (uvw : basis),
    intersection p0 p1 = Ok inter ∧
    exterior_coords inter = Ok ring ∧
    (amin cfg <= area inter)%Q ∧
    d = update defaults
          (interface_attr (area inter)
             (global_coords_numpy origin uvw (map flatten ring))
             origin uvw).

(** The edges of [s'] are those of [s], or new ones between blocks that
    were not connected in [s], in one direction only. *)
Definition grows (cfg : config) (s s' : Assembly) : Prop :=
  same_frame s s' ∧
  ∀ u v,
    edge_data s' u v = edge_data s u v ∨
    (u ≠ v ∧ edge_data s u v = None ∧ edge_data s v u = None ∧
     edge_data s' v u = None ∧
     ∃ d, edge_data s' u v = Some d ∧
          accepted cfg (default_edge_attributes s) d).

(** The edges of [s] are those of [s0], but for the edge from [k] to
    [n], which is absent or holds an accepted interface. *)
Definition inner (cfg : config) (k n : Z) (s0 s : Assembly) : Prop :=
  same_frame s0 s ∧
  (∀ u v, (u, v) ≠ (k, n) -> edge_data s u v = edge_data s0 u v) ∧
  (edge_data s k n = None ∨
   ∃ d, edge_data s k n = Some d ∧
        accepted cfg (default_edge_attributes s0) d).

End Vocabulary.

(** * Vocabulary for the assembly as a whole *)

(** The vertex keys are distinct and not above the largest key handed
    out, the block registry has exactly the vertex keys, and every vertex
    has numeric coordinates; the vertex keys are also the keys of the edge
    dict. *)
Definition consistent (a : Assembly) : Prop :=
  NoDup (vertices a) ∧
  (∀ k, k ∈ vertices a -> (k <= max_int_key a)%Z) ∧
  (∀ k, k ∈ vertices a ↔ is_Some (blocks a !! k)) ∧
  (∀ k, k ∈ vertices a ↔ is_Some (edge a !! k)) ∧
  (∀ k, k ∈ vertices a -> ∃ c, vertex_coordinates a k = Ok c).

(** The configuration with another [nmax], with other values for the two
    flags of the interface types that are not implemented. *)
Definition set_nmax (x : Z) (cfg : config) : config :=
  {| nmax := x; tmax := tmax cfg; amin := amin cfg; lmin := lmin cfg;
     face_face := face_face cfg; face_edge := face_edge cfg;
     face_vertex := face_vertex cfg |}.

Definition set_face_edge_vertex (fe fv : bool) (cfg : config) : config :=
  {| nmax := nmax cfg; tmax := tmax cfg; amin := amin cfg; lmin := lmin cfg;
     face_face := face_face cfg; face_edge := fe; face_vertex := fv |}.

(** Two assemblies with the same vertices, blocks and edge-dict keys. *)
Definition same_keys (s s' : Assembly) : Prop :=
  vertex s' = vertex s ∧ blocks s' = blocks s ∧ dom (edge s') = dom (edge s).

(** The bundle [d] of an edge from [u] to [v] comes from a face of the
    block of [u]: its origin and basis are a frame of that block, with a
    non-singular basis, and its points lie in the plane of that frame;
    [u] and [v] are distinct vertices of the assembly with a block
    each. *)
Definition from_base_face (a : Assembly) (u v : Z) (d : attrs) : Prop :=
  u ≠ v ∧ u ∈ vertices a ∧ v ∈ vertices a ∧ is_Some (blocks a !! v) ∧
  ∃ block f0 origin uvw pts,
    blocks a !! u = Some block ∧
    (f0, (origin, uvw)) ∈ block_frames block ∧
    ¬ (det uvw == 0)%Q ∧
    d !! "interface_origin" = Some (VPoint origin) ∧
    d !! "interface_uvw" = Some (VBasis uvw) ∧
    d !! "interface_points" = Some (VPoints pts) ∧
    Forall (coplanar origin uvw) pts.

(** The assembly [t] reached from [a]: same vertices, blocks and edge-dict
    keys, and every edge is one of [a] or comes from a base face. *)
Definition traced (a t : Assembly) : Prop :=
  same_keys a t ∧
  ∀ u v d, edge_data t u v = Some d ->
           edge_data a u v = Some d ∨ from_base_face a u v d.

(** * Geometry facts *)
Section GeometryFacts.

Local Open Scope Q_scope.

Lemma solve_nonsingular uvw bs :
    ~ det uvw == 0 -> solve uvw bs = Ok (map (solve1 uvw) bs).
Proof.
    intros Hd. unfold solve.
    destruct (Qeq_bool (det uvw) 0) eqn:E; [|reflexivity].
    apply Qeq_bool_iff in E. contradiction.
Qed.

Lemma solve_singular uvw bs :
    det uvw == 0 -> solve uvw bs = Error LinAlgError.
Proof.
    intros Hd. unfold solve.
    apply Qeq_bool_iff in Hd. rewrite Hd. reflexivity.
Qed.

End GeometryFacts.


(** * Loops *)

Section Loops.

Context {X : Type}.
Implicit Types (body : X -> Assembly -> outcome) (xs : list X).

(** A property of the assembly kept by every iteration holds when the
    loop is left, by return or by exception. *)
Lemma for_each_final_inv (P : Assembly -> Prop) body xs s :
  (∀ x t, x ∈ xs -> P t -> P (final (body x t))) ->
  P s -> P (final (for_each body xs s)).
Proof.
  revert s. induction xs as [|x r IH]; intros s Hstep Hs; [exact Hs|].
  cbn [for_each].
  assert (Hx : P (final (body x s))) by (apply Hstep; [left|exact Hs]).
  destruct (body x s) as [s1|e s1]; cbn [final] in *; [|exact Hx].
  apply IH; [|exact Hx].
  intros y t Hy. apply Hstep. by right.
Qed.

(** A loop that returns has run every iteration to its return. *)
Lemma for_each_returned_each (P : Assembly -> Prop) body xs s s' :
  (∀ x t, x ∈ xs -> P t -> P (final (body x t))) ->
  P s -> for_each body xs s = Returned s' ->
  ∀ x, x ∈ xs -> ∃ t t', P t ∧ body x t = Returned t'.
Proof.
  revert s. induction xs as [|x r IH]; intros s Hstep Hs Hrun y Hy.
  { by apply elem_of_nil in Hy. }
  cbn [for_each] in Hrun.
  assert (Hx : P (final (body x s))) by (apply Hstep; [left|exact Hs]).
  destruct (body x s) as [s1|e s1] eqn:E; [|discriminate].
  apply elem_of_cons in Hy as [->|Hy].
  - exists s, s1. by split.
  - apply (IH s1); [|exact Hx|exact Hrun|exact Hy].
    intros z t Hz. apply Hstep. by right.
Qed.

(** Two bodies that agree give the same loop. *)
Lemma for_each_agree body body' xs s :
  (∀ x t, x ∈ xs -> body x t = body' x t) ->
  for_each body xs s = for_each body' xs s.
Proof.
  revert s. induction xs as [|x r IH]; intros s Hag; [reflexivity|].
  cbn [for_each]. rewrite <- (Hag x s) by left.
  destruct (body x s); [|reflexivity].
  apply IH. intros y t Hy. apply Hag. by right.
Qed.

(** A loop whose iterations all return the assembly as it is does the
    same. *)
Lemma for_each_skip body xs s :
  (∀ x, x ∈ xs -> body x s = Returned s) ->
  for_each body xs s = Returned s.
Proof.
  induction xs as [|x r IH]; intros Hsk; [reflexivity|].
  cbn [for_each]. rewrite (Hsk x) by left.
  apply IH. intros y Hy. apply Hsk. by right.
Qed.

End Loops.

(** * The edge dictionary *)

Lemma has_edge_is_Some a u v :
  has_edge a u v = true ↔ is_Some (edge_data a u v).
Proof.
  unfold has_edge, edge_data.
  destruct (edge a !! u) as [nb|]; cbn.
  - by rewrite bool_decide_eq_true.
  - split; [discriminate|]. by intros [? ?].
Qed.

Lemma has_edge_None a u v :
  has_edge a u v = false ↔ edge_data a u v = None.
Proof.
  rewrite <- not_true_iff_false, has_edge_is_Some.
  by rewrite eq_None_not_Some.
Qed.

Lemma edge_data_set_edge_eq a u v nb d :
  edge_data (set_edge a (<[u := <[v := d]> nb]> (edge a))) u v = Some d.
Proof.
  unfold edge_data, set_edge; cbn.
  rewrite lookup_insert_eq; cbn. by rewrite lookup_insert_eq.
Qed.

Lemma edge_data_set_edge_ne a u v nb d u' v' :
  edge a !! u = Some nb -> (u', v') ≠ (u, v) ->
  edge_data (set_edge a (<[u := <[v := d]> nb]> (edge a))) u' v'
  = edge_data a u' v'.
Proof.
  intros Hnb Hne. unfold edge_data, set_edge; cbn.
  destruct (decide (u' = u)) as [->|Hu].
  - rewrite lookup_insert_eq, Hnb; cbn.
    rewrite lookup_insert_ne; [done|]. intros ->. by apply Hne.
  - by rewrite lookup_insert_ne.
Qed.

Lemma same_frame_refl s : same_frame s s.
Proof. by repeat split. Qed.

Lemma same_frame_trans s1 s2 s3 :
  same_frame s1 s2 -> same_frame s2 s3 -> same_frame s1 s3.
Proof.
  unfold same_frame. intros (?&?&?&?&?) (?&?&?&?&?).
  repeat split; congruence.
Qed.

Lemma same_frame_set_edge s e : same_frame s (set_edge s e).
Proof. by repeat split. Qed.

Lemma ext_refl s : ext s s.
Proof. by repeat split. Qed.

Lemma ext_trans s1 s2 s3 : ext s1 s2 -> ext s2 s3 -> ext s1 s3.
Proof.
  unfold ext. intros (?&?&H12) (?&?&H23).
  repeat split; [congruence..|]. intros u v Huv. by apply H23, H12.
Qed.

(** What [add_edge] does between two vertices of the assembly. *)
Lemma add_edge_vertices a u v attr :
  in_vertex a u = true -> in_vertex a v = true ->
  add_edge a u v (Some attr) ∅ = Raised KeyError a ∨
  ∃ nb, edge a !! u = Some nb ∧
    add_edge a u v (Some attr) ∅
    = Returned (set_edge a
        (<[u := <[v := update (default ∅ (nb !! v))
                           (update (default_edge_attributes a) attr)]> nb]>
           (edge a))).
Proof.
  intros Hu Hv. unfold add_edge. rewrite Hu, Hv.
  unfold or_empty; cbn [default].
  replace (update attr ∅) with attr
    by (unfold update; by rewrite (left_id_L ∅ (∪))).
  destruct (edge a !! u) as [nb|]; [right|left; reflexivity].
  exists nb. by split.
Qed.

(** Whenever [add_edge] returns, the edge is there. *)
Lemma add_edge_returned a u v attr_dict kwattr a' :
  add_edge a u v attr_dict kwattr = Returned a' -> has_edge a' u v = true.
Proof.
  unfold add_edge.
  set (a1 := if in_vertex a u then _ else _).
  set (a2 := if in_vertex a1 v then _ else _).
  destruct (edge a2 !! u) as [nb|]; [|discriminate].
  intros [= <-]. apply has_edge_is_Some.
  rewrite edge_data_set_edge_eq. by eexists.
Qed.

(** * The interface attributes *)

Lemma dom_interface_attr ar coords origin uvw :
  dom (interface_attr ar coords origin uvw) = interface_fields.
Proof.
  unfold interface_attr, interface_fields.
  rewrite !dom_insert_L, dom_singleton_L. set_solver.
Qed.

Lemma dom_update (d new : attrs) : dom (update d new) = dom new ∪ dom d.
Proof. unfold update. by rewrite dom_union_L. Qed.

Lemma update_empty_l (d : attrs) : update ∅ d = d.
Proof. unfold update. by rewrite (right_id_L ∅ (∪)). Qed.

Lemma update_empty_r (d : attrs) : update d ∅ = d.
Proof. unfold update. by rewrite (left_id_L ∅ (∪)). Qed.

(** Updating a dict with one that has all its keys replaces it. *)
Lemma update_covered (d new : attrs) :
  dom d ⊆ dom new -> update d new = new.
Proof.
  intros Hsub. unfold update. apply map_eq. intros i.
  destruct (new !! i) as [x|] eqn:E.
  - by rewrite (lookup_union_Some_l _ _ _ _ E).
  - rewrite lookup_union_r by done.
    apply not_elem_of_dom. intros Hi.
    apply Hsub in Hi. by apply not_elem_of_dom in E.
Qed.

Section IdentifyFacts.

Context {PE : PolygonEngine} {SI : SpatialIndex}.
Variable cfg : config.

Lemma accepted_overwrite defaults d d' :
  accepted cfg defaults d -> accepted cfg defaults d' -> update d d' = d'.
Proof.
  intros (?&?&?&?&?&?&_&_&_&->) (?&?&?&?&?&?&_&_&_&->).
  apply update_covered.
  by rewrite !dom_update, !dom_interface_attr.
Qed.

Lemma grows_refl s : grows cfg s s.
Proof. split; [apply same_frame_refl|]. intros u v. by left. Qed.

Lemma grows_trans s1 s2 s3 :
  grows cfg s1 s2 -> grows cfg s2 s3 -> grows cfg s1 s3.
Proof.
  intros [F12 E12] [F23 E23]. split; [by eapply same_frame_trans|].
  intros u v.
  destruct (E23 u v) as [Huv|(Hne & Hn2 & Hr2 & Hr3 & d & Hd & Hacc)].
  { destruct (E12 u v) as [H12|(Hne & H1 & H1' & H2' & d & Hd & Hacc)].
    - left. congruence.
    - right. repeat split; [done..| |exists d; split; [congruence|done]].
      destruct (E23 v u) as [->|(_&_&Hc&_)]; [done|congruence]. }
  right. split; [exact Hne|].
  assert (edge_data s1 u v = None) as H1.
  { destruct (E12 u v) as [<-|(_&_&_&_&d'&Hd'&_)]; [done|congruence]. }
  assert (edge_data s1 v u = None) as H1'.
  { destruct (E12 v u) as [<-|(_&_&_&_&d'&Hd'&_)]; [done|congruence]. }
  repeat split; [done..|].
  exists d. split; [done|].
  destruct F12 as (_&_&<-&_). exact Hacc.
Qed.

Lemma grows_ext s s' : grows cfg s s' -> ext s s'.
Proof.
  intros [(Hv&Hb&_) He]. repeat split; [done..|].
  intros u v Huv. apply has_edge_is_Some. apply has_edge_is_Some in Huv.
  destruct (He u v) as [->|(_&_&_&_&d&->&_)]; [done|by eexists].
Qed.

Lemma inner_start k n s0 :
  edge_data s0 k n = None -> inner cfg k n s0 s0.
Proof. intros H. split; [apply same_frame_refl|]. split; [done|by left]. Qed.

Lemma inner_grows k n s0 s :
  k ≠ n -> edge_data s0 k n = None -> edge_data s0 n k = None ->
  inner cfg k n s0 s -> grows cfg s0 s.
Proof.
  intros Hkn Hk Hn (Hf & Hoth & Hkn'). split; [exact Hf|].
  intros u v. destruct (decide ((u, v) = (k, n))) as [[= -> ->]|Hne].
  - destruct Hkn' as [Hnone|(d & Hd & Hacc)]; [left; congruence|].
    right. repeat split; [done..| |by exists d].
    rewrite Hoth; [done|]. intros [= -> _]. done.
  - left. by apply Hoth.
Qed.

(** What a face pair does is decided by the geometry alone: it is
    skipped, it raises, or it is accepted and written by [add_edge]. *)
Lemma face_pair_cases k n origin uvw p0 rst f1 :
  (∀ t, face_pair cfg k n origin uvw p0 rst f1 t = Returned t) ∨
  (∃ e, ∀ t, face_pair cfg k n origin uvw p0 rst f1 t = Raised e t) ∨
  (∃ p1 inter ring,
     intersection p0 p1 = Ok inter ∧
     exterior_coords inter = Ok ring ∧
     (amin cfg <= area inter)%Q ∧
     ∀ t, face_pair cfg k n origin uvw p0 rst f1 t
          = add_edge t k n
              (Some (interface_attr (area inter)
                       (global_coords_numpy origin uvw (map flatten ring))
                       origin uvw)) ∅).
Proof.
  unfold face_pair.
  destruct (rmap _ (snd f1)) as [rst1|e]; [|right; left; by exists e].
  destruct (off_plane (tmax cfg) rst1); [by left|].
  destruct (Polygon rst1) as [p1|e]; [|right; left; by exists e].
  destruct (Qeq_bool (area p1) 0); [by left|].
  destruct (intersects p0 p1) as [[|]|e];
    [|by left|right; left; by exists e].
  destruct (intersection p0 p1) as [inter|e] eqn:Hinter;
    [|right; left; by exists e].
  destruct (Qle_bool (amin cfg) (area inter)) eqn:E; [|by left].
  destruct (exterior_coords inter) as [ring|e] eqn:Hring;
    [|right; left; by exists e].
  right; right. exists p1, inter, ring.
  split; [done|]. split; [done|].
  split; [by apply Qle_bool_iff|done].
Qed.

Lemma in_vertex_same_frame s0 s u :
  same_frame s0 s -> in_vertex s0 u = true -> in_vertex s u = true.
Proof. intros (Hv&_). unfold in_vertex, vertices. by rewrite Hv. Qed.

Lemma face_pair_inner k n origin uvw p0 rst f1 s0 s :
  in_vertex s0 k = true -> in_vertex s0 n = true ->
  inner cfg k n s0 s ->
  inner cfg k n s0 (final (face_pair cfg k n origin uvw p0 rst f1 s)).
Proof.
  intros Hk Hn Hin.
  destruct (face_pair_cases k n origin uvw p0 rst f1)
    as [H|[[e H]|(p1 & inter & ring & Hinter & Hring & Hle & H)]];
    rewrite H; cbn [final]; try done.
  set (attr := interface_attr _ _ _ _) in *.
  destruct Hin as (Hf & Hoth & Hkn).
  destruct (add_edge_vertices s k n attr) as [->|(nb & Hnb & ->)];
    [by eapply in_vertex_same_frame..| |]; cbn [final].
  { exact (conj Hf (conj Hoth Hkn)). }
  split; [eapply same_frame_trans; [exact Hf|apply same_frame_set_edge]|].
  split.
  { intros u v Huv. rewrite edge_data_set_edge_ne by done. by apply Hoth. }
  right. rewrite edge_data_set_edge_eq. eexists; split; [reflexivity|].
  assert (nb !! n = edge_data s k n) as ->.
  { unfold edge_data. by rewrite Hnb. }
  assert (Hacc : accepted cfg (default_edge_attributes s0)
                   (update (default_edge_attributes s) attr)).
  { destruct Hf as (_&_&->&_). by exists p0, p1, inter, ring, origin, uvw. }
  destruct Hkn as [->|(d & -> & Hd)]; cbn [default from_option id].
  - by rewrite update_empty_l.
  - by rewrite (accepted_overwrite _ _ _ Hd Hacc).
Qed.

(** Vertices stay vertices. *)
Lemma in_vertex_grows s s' (l : list Z) :
  grows cfg s s' ->
  Forall (fun n => in_vertex s n = true) l ->
  Forall (fun n => in_vertex s' n = true) l.
Proof.
  intros [Hf _] Hl. eapply Forall_impl; [exact Hl|]. intros n.
  by apply in_vertex_same_frame.
Qed.

Lemma candidate_grows index_key k origin uvw p0 j s :
  in_vertex s k = true ->
  Forall (fun n => in_vertex s n = true) index_key ->
  grows cfg s (final (candidate cfg index_key k origin uvw p0 j s)).
Proof.
  intros Hk Hidx. unfold candidate.
  destruct (index_key !! j) as [n|] eqn:Hj; [|apply grows_refl].
  assert (Hn : in_vertex s n = true).
  { rewrite Forall_forall in Hidx. apply Hidx.
    by eapply list_elem_of_lookup_2. }
  destruct (Z.eqb n k) eqn:Hnk; [apply grows_refl|].
  apply Z.eqb_neq in Hnk.
  destruct (has_edge s k n) eqn:Hkn; [apply grows_refl|].
  destruct (has_edge s n k) eqn:Hnk'; [apply grows_refl|].
  apply has_edge_None in Hkn, Hnk'.
  destruct (blocks s !! n) as [nbr|]; [|apply grows_refl].
  destruct (neighbour_coords origin uvw nbr) as [rst|e]; [|apply grows_refl].
  apply (inner_grows k n); [done..|].
  apply for_each_final_inv; [|by apply inner_start].
  intros f1 t _. by apply face_pair_inner.
Qed.

Lemma base_face_grows index_key k block nbrs f0 s :
  in_vertex s k = true ->
  Forall (fun n => in_vertex s n = true) index_key ->
  grows cfg s (final (base_face cfg index_key k block nbrs f0 s)).
Proof.
  intros Hk Hidx. unfold base_face.
  destruct f0 as [f0 [origin uvw]].
  destruct (rbind _ _) as [rst0|e]; [|apply grows_refl].
  destruct (Polygon rst0) as [p0|e]; [|apply grows_refl].
  apply (for_each_final_inv (grows cfg s)); [|apply grows_refl].
  intros j t _ Ht. eapply grows_trans; [exact Ht|].
  apply candidate_grows.
  - destruct Ht as [Hf _]. by eapply in_vertex_same_frame.
  - by eapply in_vertex_grows.
Qed.

Lemma base_block_grows keys block_nnbrs k s :
  in_vertex s k = true ->
  Forall (fun n => in_vertex s n = true) keys ->
  grows cfg s (final (base_block cfg keys block_nnbrs k s)).
Proof.
  intros Hk Hidx. unfold base_block.
  destruct (key_index keys !! k) as [i|]; [|apply grows_refl].
  destruct (blocks s !! k) as [block|]; [|apply grows_refl].
  destruct (block_nnbrs !! i) as [[ds nbrs]|]; [|apply grows_refl].
  destruct (face_face cfg); [|apply grows_refl].
  apply (for_each_final_inv (grows cfg s)); [|apply grows_refl].
  intros f0 t _ Ht. eapply grows_trans; [exact Ht|].
  apply base_face_grows.
  - destruct Ht as [Hf _]. by eapply in_vertex_same_frame.
  - by eapply in_vertex_grows.
Qed.

Lemma in_vertex_vertices s :
  Forall (fun n => in_vertex s n = true) (vertices s).
Proof.
  apply Forall_forall. intros n Hn. unfold in_vertex.
  by apply bool_decide_eq_true.
Qed.

Lemma block_loop_grows keys block_nnbrs ks s0 s :
  Forall (fun n => in_vertex s0 n = true) keys ->
  Forall (fun n => in_vertex s0 n = true) ks ->
  grows cfg s0 s ->
  grows cfg s0 (final (for_each (base_block cfg keys block_nnbrs) ks s)).
Proof.
  intros Hkeys Hks Hs.
  apply (for_each_final_inv (grows cfg s0)); [|exact Hs].
  intros k t Hk Ht. eapply grows_trans; [exact Ht|].
  apply base_block_grows.
  - rewrite Forall_forall in Hks. destruct Ht as [Hf _].
    eapply in_vertex_same_frame; [exact Hf|by apply Hks].
  - by eapply in_vertex_grows.
Qed.

(** The whole pass only adds accepted interfaces between blocks that were
    not connected. *)
Lemma identify_grows a :
  grows cfg a (final (identify_interfaces a cfg)).
Proof.
  unfold identify_interfaces.
  destruct (rmap _ (vertices a)) as [blks|e]; [|apply grows_refl].
  destruct (rmap (vertex_coordinates a) (vertices a)) as [cloud|e];
    [|apply grows_refl].
  destruct (_find_nearest_neighbours cloud _) as [nnbrs|e];
    [|apply grows_refl].
  apply block_loop_grows;
    [apply in_vertex_vertices..|apply grows_refl].
Qed.

End IdentifyFacts.

Lemma has_edge_bool_decide a u v :
  has_edge a u v = bool_decide (is_Some (edge_data a u v)).
Proof.
  unfold has_edge, edge_data. by destruct (edge a !! u) as [nb|].
Qed.

Lemma no_edges_at_most_one a : no_edges a -> at_most_one a.
Proof.
  intros Hno u v _ Huv. apply has_edge_is_Some in Huv as [d Hd].
  by rewrite Hno in Hd.
Qed.

Lemma no_edgesb_sound a : no_edgesb a = true -> no_edges a.
Proof.
  unfold no_edgesb, no_edges, edge_data. intros Hb u v.
  destruct (edge a !! u) as [nb|] eqn:Hu; cbn; [|done].
  rewrite forallb_forall in Hb.
  specialize (Hb (u, nb)). cbn in Hb.
  destruct (map_to_list nb) eqn:Hl.
  - apply map_to_list_empty_iff in Hl. subst nb. apply lookup_empty.
  - discriminate Hb. apply list_elem_of_In. by apply elem_of_map_to_list.
Qed.

(** * The claims about [identify_interfaces] *)

(** C1.  After a pass of [identify_interfaces] at most one edge exists
    between any two blocks: an assembly in which no pair is connected in
    both directions stays so, whatever the order of the blocks, the
    spatial index and the polygon engine; and a pair that was connected,
    in either direction, is left exactly as it was. *)
Theorem no_duplicate_interfaces {PE : PolygonEngine} {SI : SpatialIndex}
  (a : Assembly) (cfg : config) :
  at_most_one a ->
  at_most_one (final (identify_interfaces a cfg)) ∧
  ∀ u v, has_edge a u v = true ∨ has_edge a v u = true ->
         edge_data (final (identify_interfaces a cfg)) u v = edge_data a u v.
Proof.
  intros Hone. destruct (identify_grows cfg a) as [_ Hg]. split.
  - intros u v Hne Huv.
    apply has_edge_None. apply has_edge_is_Some in Huv.
    destruct (Hg u v) as [Heq|(_&_&_&Hvu&_)]; [|exact Hvu].
    destruct (Hg v u) as [Heq'|(_&_&_&Huv'&_)].
    + rewrite Heq'. apply has_edge_None, (Hone u v Hne).
      apply has_edge_is_Some. by rewrite <- Heq.
    + rewrite Huv' in Huv. by destruct Huv.
  - intros u v Hcon.
    destruct (Hg u v) as [Heq|(_&Huv&Hvu&_)]; [exact Heq|].
    apply has_edge_None in Huv, Hvu. destruct Hcon; congruence.
Qed.

(** C9.  [identify_interfaces] never creates an edge from a block to
    itself, whatever the spatial index returns (the queried block
    included): the self-loops after a pass are those before it. *)
Theorem no_self_interface {PE : PolygonEngine} {SI : SpatialIndex}
  (a : Assembly) (cfg : config) (k : Z) :
  has_edge (final (identify_interfaces a cfg)) k k = has_edge a k k.
Proof.
  rewrite !has_edge_bool_decide.
  destruct (identify_grows cfg a) as [_ Hg].
  destruct (Hg k k) as [->|(Hne&_)]; [reflexivity|done].
Qed.

(** ** Thresholds *)

Lemma Qgtb_lt a b : Qgtb a b = true ↔ (b < a)%Q.
Proof.
  unfold Qgtb. rewrite negb_true_iff, <- not_true_iff_false, Qle_bool_iff.
  split; [apply Qnot_le_lt|apply Qlt_not_le].
Qed.

Lemma off_plane_Exists tmax rst1 :
  off_plane tmax rst1 = true ↔
  Exists (fun p => (tmax < Qabs (vz p))%Q) rst1.
Proof.
  unfold off_plane. rewrite existsb_exists, Exists_exists.
  split; intros (p & Hp & Ht); exists p.
  - split; [by apply list_elem_of_In|by apply Qgtb_lt].
  - split; [by apply list_elem_of_In|by apply Qgtb_lt].
Qed.

Lemma update_lookup_new (d new : attrs) i x :
  new !! i = Some x -> update d new !! i = Some x.
Proof. intros H. unfold update. by apply lookup_union_Some_l. Qed.

Lemma update_lookup_old (d new : attrs) i :
  new !! i = None -> update d new !! i = d !! i.
Proof. intros H. unfold update. by apply lookup_union_r. Qed.

Lemma interface_attr_size ar coords origin uvw :
  interface_attr ar coords origin uvw !! "interface_size" = Some (VNum ar).
Proof. unfold interface_attr. by simplify_map_eq. Qed.

Lemma add_edge_vertices_eq a u v attr :
  in_vertex a u = true -> in_vertex a v = true ->
  add_edge a u v (Some attr) ∅ =
  match edge a !! u with
  | None => Raised KeyError a
  | Some nb =>
      Returned (set_edge a
        (<[u := <[v := update (default ∅ (nb !! v))
                           (update (default_edge_attributes a) attr)]> nb]>
           (edge a)))
  end.
Proof.
  intros Hu Hv.
  destruct (add_edge_vertices a u v attr Hu Hv) as [H|(nb & Hnb & H)];
    rewrite H.
  - unfold add_edge in H. rewrite Hu, Hv in H.
    by destruct (edge a !! u).
  - by rewrite Hnb.
Qed.

(** The face-pair test once the projected vertices [rst1] of the
    neighbour face are known. *)
Lemma face_pair_unfold {PE : PolygonEngine} cfg k n origin uvw p0 rst f1
  rst1 s :
  rmap (fun key => of_option (rst !! key)) (snd f1) = Ok rst1 ->
  face_pair cfg k n origin uvw p0 rst f1 s =
  if off_plane (tmax cfg) rst1 then Returned s
  else
    match Polygon rst1 with
    | Error e => Raised e s
    | Ok p1 =>
        if Qeq_bool (area p1) 0 then Returned s
        else
          match intersects p0 p1 with
          | Error e => Raised e s
          | Ok false => Returned s
          | Ok true =>
              match intersection p0 p1 with
              | Error e => Raised e s
              | Ok inter =>
                  if Qle_bool (amin cfg) (area inter) then
                    match exterior_coords inter with
                    | Error e => Raised e s
                    | Ok ring =>
                        add_edge s k n
                          (Some (interface_attr (area inter)
                                   (global_coords_numpy origin uvw
                                      (map flatten ring))
                                   origin uvw)) ∅
                    end
                  else Returned s
              end
          end
    end.
Proof. intros H. unfold face_pair. by rewrite H. Qed.

(** A face pair that passes every test up to the intersection. *)
Lemma face_pair_intersecting {PE : PolygonEngine} cfg k n origin uvw p0 rst
  f1 rst1 p1 inter s :
  rmap (fun key => of_option (rst !! key)) (snd f1) = Ok rst1 ->
  off_plane (tmax cfg) rst1 = false ->
  Polygon rst1 = Ok p1 ->
  ¬ (area p1 == 0)%Q ->
  intersects p0 p1 = Ok true ->
  intersection p0 p1 = Ok inter ->
  face_pair cfg k n origin uvw p0 rst f1 s =
  if Qle_bool (amin cfg) (area inter) then
    match exterior_coords inter with
    | Error e => Raised e s
    | Ok ring =>
        add_edge s k n
          (Some (interface_attr (area inter)
                   (global_coords_numpy origin uvw (map flatten ring))
                   origin uvw)) ∅
    end
  else Returned s.
Proof.
  intros Hrst Hoff Hp1 Har Hint Hinter.
  rewrite (face_pair_unfold _ _ _ _ _ _ _ _ _ _ Hrst), Hoff, Hp1, Hint,
    Hinter.
  destruct (Qeq_bool (area p1) 0) eqn:E; [|done].
  by apply Qeq_bool_iff in E.
Qed.


(** C3.  A neighbour face is rejected as not coplanar exactly when the
    out-of-plane coordinate of one of its projected vertices exceeds
    [tmax] in absolute value.  A face whose vertices all deviate by at
    most [tmax] -- by exactly [tmax] included -- is not rejected: the
    polygon of its projected vertices is built and tested, and it forms an
    interface when these tests succeed; a deviation of [tmax + eps] at one
    vertex rejects it before any polygon is built. *)
Theorem coplanarity_tolerance {PE : PolygonEngine} (cfg : config)
  (rst1 : list vec) :
  (off_plane (tmax cfg) rst1 = true ↔
   Exists (fun p => (tmax cfg < Qabs (vz p))%Q) rst1) ∧
  (Forall (fun p => (Qabs (vz p) <= tmax cfg)%Q) rst1 ->
   off_plane (tmax cfg) rst1 = false) ∧
  (∀ p eps, p ∈ rst1 -> (0 < eps)%Q ->
     (Qabs (vz p) == tmax cfg + eps)%Q ->
     off_plane (tmax cfg) rst1 = true) ∧
  (∀ k n origin uvw p0 rst f1 s,
     rmap (fun key => of_option (rst !! key)) (snd f1) = Ok rst1 ->
     (off_plane (tmax cfg) rst1 = true ->
      face_pair cfg k n origin uvw p0 rst f1 s = Returned s) ∧
     (off_plane (tmax cfg) rst1 = false ->
      (∀ e, Polygon rst1 = Error e ->
            face_pair cfg k n origin uvw p0 rst f1 s = Raised e s) ∧
      (∀ p1 inter ring,
         Polygon rst1 = Ok p1 ->
         ¬ (area p1 == 0)%Q ->
         intersects p0 p1 = Ok true ->
         intersection p0 p1 = Ok inter ->
         (amin cfg <= area inter)%Q ->
         exterior_coords inter = Ok ring ->
         ∃ attr, face_pair cfg k n origin uvw p0 rst f1 s
                 = add_edge s k n (Some attr) ∅))).
Proof.
  split; [apply off_plane_Exists|]. split; [|split].
  - intros Hall. apply not_true_iff_false. rewrite off_plane_Exists.
    rewrite Exists_exists. intros (p & Hp & Hlt).
    rewrite Forall_forall in Hall. apply Hall in Hp.
    by apply Qle_not_lt in Hp.
  - intros p eps Hp Heps Heq. apply off_plane_Exists, Exists_exists.
    exists p. split; [done|]. rewrite Heq.
    rewrite <- (Qplus_0_r (tmax cfg)) at 1.
    by apply Qplus_lt_r.
  - intros k n origin uvw p0 rst f1 s Hrst. split.
    + intros Hoff.
      by rewrite (face_pair_unfold _ _ _ _ _ _ _ _ _ _ Hrst), Hoff.
    + intros Hoff. split.
      * intros e He.
        by rewrite (face_pair_unfold _ _ _ _ _ _ _ _ _ _ Hrst), Hoff, He.
      * intros p1 inter ring Hp1 Har Hint Hinter Hle Hring.
        rewrite (face_pair_intersecting _ _ _ _ _ _ _ _ _ _ _ _
                   Hrst Hoff Hp1 Har Hint Hinter), Hring.
        apply Qle_bool_iff in Hle. rewrite Hle. by eexists.
Qed.

(** ** The attribute bundle *)

Lemma interface_attr_lookup ar coords origin uvw :
  interface_attr ar coords origin uvw !! "interface_type"
    = Some (VStr "face_face") ∧
  interface_attr ar coords origin uvw !! "interface_points"
    = Some (VPoints (removelast coords)) ∧
  interface_attr ar coords origin uvw !! "interface_origin"
    = Some (VPoint origin) ∧
  interface_attr ar coords origin uvw !! "interface_uvw"
    = Some (VBasis uvw).
Proof. unfold interface_attr. repeat split; by simplify_map_eq. Qed.

Lemma removelast_closed_ring (o : vec) (uvw : basis) p ring :
  removelast (global_coords_numpy o uvw (map flatten (p :: ring ++ [p])))
  = global_coords_numpy o uvw (map flatten (p :: ring)).
Proof.
  unfold global_coords_numpy.
  rewrite app_comm_cons, !map_app. cbn [map]. apply removelast_last.
Qed.

(** C4, as the code has it.  An edge written by [identify_interfaces]
    carries the five fields [interface_type] (["face_face"]),
    [interface_size] (the area of the intersection), [interface_points],
    [interface_origin] and [interface_uvw]; under every other key it
    carries the default edge attributes of the assembly, since [add_edge]
    starts from a copy of them.  [interface_points] is the boundary ring of
    the intersection in world coordinates without its last point: the
    repeated closing point, when the ring is closed. *)
Theorem interface_attribute_bundle {PE : PolygonEngine} {SI : SpatialIndex}
  (a : Assembly) (cfg : config) (u v : Z) (d : attrs) :
  edge_data (final (identify_interfaces a cfg)) u v = Some d ->
  edge_data a u v = Some d ∨
  ∃ (p0 p1 inter : geom) (ring : list vec) (origin : vec) (uvw : basis),
    intersection p0 p1 = Ok inter ∧
    exterior_coords inter = Ok ring ∧
    d !! "interface_type" = Some (VStr "face_face") ∧
    d !! "interface_size" = Some (VNum (area inter)) ∧
    d !! "interface_points"
      = Some (VPoints (removelast
                (global_coords_numpy origin uvw (map flatten ring)))) ∧
    d !! "interface_origin" = Some (VPoint origin) ∧
    d !! "interface_uvw" = Some (VBasis uvw) ∧
    (∀ key, key ∉ interface_fields ->
            d !! key = default_edge_attributes a !! key) ∧
    dom d = interface_fields ∪ dom (default_edge_attributes a) ∧
    (∀ p r, ring = p :: r ++ [p] ->
            d !! "interface_points"
            = Some (VPoints
                (global_coords_numpy origin uvw (map flatten (p :: r))))).
Proof.
  intros Hd. destruct (identify_grows cfg a) as [_ Hg].
  destruct (Hg u v) as [Heq|(_&_&_&_&d'&Hd'&Hacc)]; [left; congruence|].
  right. assert (d' = d) as -> by congruence.
  destruct Hacc as (p0 & p1 & inter & ring & origin & uvw & Hinter & Hring
                    & Hle & ->).
  exists p0, p1, inter, ring, origin, uvw.
  set (coords := global_coords_numpy _ _ _).
  destruct (interface_attr_lookup (area inter) coords
              origin uvw) as (Ht & Hp & Ho & Hu).
  repeat split; try done; try by apply update_lookup_new.
  - intros key Hkey. apply update_lookup_old, not_elem_of_dom.
    by rewrite dom_interface_attr.
  - by rewrite dom_update, dom_interface_attr.
  - intros p r Hclosed. apply update_lookup_new. rewrite Hp.
    subst coords. by rewrite Hclosed, removelast_closed_ring.
Qed.

(** ** Singular frames *)

Lemma base_face_returned_nonsingular {PE : PolygonEngine} cfg keys k block
  nbrs f0 origin uvw s s' :
  base_face cfg keys k block nbrs (f0, (origin, uvw)) s = Returned s' ->
  ¬ (det uvw == 0)%Q.
Proof.
  unfold base_face. intros Hrun Hdet.
  destruct (face_coordinates block f0) as [xyz|e]; cbn [rbind] in Hrun;
    [|discriminate].
  unfold local_coords in Hrun. by rewrite solve_singular in Hrun.
Qed.

(** C5, as the code has it.  A base face whose frame is singular makes
    [solve] raise [LinAlgError], which [identify_interfaces] does not
    catch: the face loop is left at that face with the assembly as it
    was, and a pass over an assembly with such a face does not return but
    raises; the edges written before remain. *)
Theorem singular_frame_aborts {PE : PolygonEngine} {SI : SpatialIndex}
  (a : Assembly) (cfg : config) (k : Z) (block : Block) (f0 : Z)
  (origin : vec) (uvw : basis) :
  face_face cfg = true ->
  k ∈ vertices a ->
  blocks a !! k = Some block ->
  (f0, (origin, uvw)) ∈ block_frames block ->
  (det uvw == 0)%Q ->
  (∃ e a', identify_interfaces a cfg = Raised e a' ∧ grows cfg a a') ∧
  (∀ keys nbrs s xyz,
     face_coordinates block f0 = Ok xyz ->
     base_face cfg keys k block nbrs (f0, (origin, uvw)) s
     = Raised LinAlgError s).
Proof.
  intros Hff Hk Hblock Hf0 Hdet. split.
  - pose proof (identify_grows cfg a) as Hg.
    destruct (identify_interfaces a cfg) as [a'|e a'] eqn:Hrun;
      [exfalso|by exists e, a'].
    clear Hg. unfold identify_interfaces in Hrun.
    destruct (rmap _ (vertices a)) as [blks|e]; [|discriminate].
    destruct (rmap (vertex_coordinates a) (vertices a)) as [cloud|e];
      [|discriminate].
    destruct (_find_nearest_neighbours cloud _) as [nnbrs|e];
      [|discriminate].
    eapply (for_each_returned_each (grows cfg a)) in Hrun;
      [|clear Hrun|apply grows_refl|exact Hk].
    + destruct Hrun as (t & t' & Ht & Hrun). unfold base_block in Hrun.
      destruct (key_index (vertices a) !! k) as [i|]; [|discriminate].
      destruct Ht as [(_ & Hb & _) _]. rewrite Hb, Hblock in Hrun.
      destruct (_ !! i) as [[ds nbrs]|]; [|discriminate].
      rewrite Hff in Hrun.
      eapply (for_each_returned_each (fun _ => True)) in Hrun;
        [|done|done|exact Hf0].
      destruct Hrun as (t1 & t2 & _ & Hrun).
      by apply base_face_returned_nonsingular in Hrun.
    + intros x t Hx Ht. eapply grows_trans; [exact Ht|].
      destruct Ht as [Hf _]. apply base_block_grows.
      * eapply in_vertex_same_frame; [exact Hf|].
        by apply bool_decide_eq_true.
      * eapply Forall_impl; [apply in_vertex_vertices|].
        intros n. by apply in_vertex_same_frame.
  - intros keys nbrs s xyz Hxyz. unfold base_face.
    rewrite Hxyz. cbn [rbind]. unfold local_coords.
    by rewrite solve_singular.
Qed.

(** ** Configurations *)

Section Configuration.

Context {PE : PolygonEngine} {SI : SpatialIndex}.
Variables (a : Assembly) (cfg : config).

(** With a negative [amin] every non-negative area passes, as with
    [amin = 0]. *)
Lemma face_pair_negative_amin k n origin uvw p0 rst f1 s :
  (∀ g, 0 <= area g)%Q -> (amin cfg < 0)%Q ->
  face_pair cfg k n origin uvw p0 rst f1 s
  = face_pair (set_amin 0 cfg) k n origin uvw p0 rst f1 s.
Proof.
  intros Hpos Hneg. unfold face_pair. cbn [tmax amin set_amin].
  destruct (rmap _ (snd f1)) as [rst1|e]; [|done].
  destruct (off_plane (tmax cfg) rst1); [done|].
  destruct (Polygon rst1) as [p1|e]; [|done].
  destruct (Qeq_bool (area p1) 0); [done|].
  destruct (intersects p0 p1) as [[|]|e]; [|done..].
  destruct (intersection p0 p1) as [inter|e]; [|done].
  assert (Qle_bool (amin cfg) (area inter) = true) as ->.
  { apply Qle_bool_iff. apply Qlt_le_weak.
    eapply Qlt_le_trans; [exact Hneg|apply Hpos]. }
  assert (Qle_bool 0 (area inter) = true) as ->
    by apply Qle_bool_iff, Hpos.
  done.
Qed.

Lemma identify_negative_amin :
  (∀ g, 0 <= area g)%Q -> (amin cfg < 0)%Q ->
  identify_interfaces a cfg = identify_interfaces a (set_amin 0 cfg).
Proof.
  intros Hpos Hneg. unfold identify_interfaces. cbn [nmax set_amin].
  destruct (rmap _ (vertices a)) as [blks|e]; [|done].
  destruct (rmap (vertex_coordinates a) (vertices a)) as [cloud|e]; [|done].
  destruct (_find_nearest_neighbours cloud _) as [nnbrs|e]; [|done].
  apply for_each_agree. intros k s _. unfold base_block.
  destruct (key_index (vertices a) !! k) as [i|]; [|done].
  destruct (blocks s !! k) as [block|]; [|done].
  destruct (_ !! i) as [[ds nbrs]|]; [|done].
  cbn [face_face set_amin]. destruct (face_face cfg); [|done].
  apply for_each_agree. intros [f0 [origin uvw]] s1 _. unfold base_face.
  destruct (rbind _ _) as [rst0|e]; [|done].
  destruct (Polygon rst0) as [p0|e]; [|done].
  apply for_each_agree. intros j s2 _. unfold candidate.
  destruct (vertices a !! j) as [n|]; [|done].
  destruct (Z.eqb n k); [done|].
  destruct (has_edge s2 k n); [done|].
  destruct (has_edge s2 n k); [done|].
  destruct (blocks s2 !! n) as [nbr|]; [|done].
  destruct (neighbour_coords origin uvw nbr) as [rst|e]; [|done].
  apply for_each_agree. intros f1 s3 _.
  by apply face_pair_negative_amin.
Qed.

(** With a negative [tmax] every face that has a vertex is off the
    plane. *)
Lemma off_plane_negative_tmax rst1 :
  (tmax cfg < 0)%Q -> rst1 ≠ [] -> off_plane (tmax cfg) rst1 = true.
Proof.
  intros Hneg Hne. destruct rst1 as [|p r]; [done|].
  apply off_plane_Exists. left.
  eapply Qlt_le_trans; [exact Hneg|apply Qabs_nonneg].
Qed.

Lemma rmap_nil {A B} (f : A -> result B) l :
  rmap f l = Ok [] -> l = [].
Proof.
  destruct l as [|x r]; [done|]. cbn.
  destruct (f x); cbn; [|done]. by destruct (rmap f r).
Qed.

Lemma identify_negative_tmax :
  faces_nonempty a -> (tmax cfg < 0)%Q ->
  final (identify_interfaces a cfg) = a.
Proof.
  intros Hfaces Hneg. unfold identify_interfaces.
  destruct (rmap _ (vertices a)) as [blks|e]; [|done].
  destruct (rmap (vertex_coordinates a) (vertices a)) as [cloud|e]; [|done].
  destruct (_find_nearest_neighbours cloud _) as [nnbrs|e]; [|done].
  apply (for_each_final_inv (fun t => t = a)); [|done].
  intros k ? _ ->. unfold base_block.
  destruct (key_index (vertices a) !! k) as [i|]; [|done].
  destruct (blocks a !! k) as [block|]; [|done].
  destruct (_ !! i) as [[ds nbrs]|]; [|done].
  destruct (face_face cfg); [|done].
  apply (for_each_final_inv (fun t => t = a)); [|done].
  intros [f0 [origin uvw]] ? _ ->. unfold base_face.
  destruct (rbind _ _) as [rst0|e]; [|done].
  destruct (Polygon rst0) as [p0|e]; [|done].
  apply (for_each_final_inv (fun t => t = a)); [|done].
  intros j ? _ ->. unfold candidate.
  destruct (vertices a !! j) as [n|]; [|done].
  destruct (Z.eqb n k); [done|].
  destruct (has_edge a k n); [done|].
  destruct (has_edge a n k); [done|].
  destruct (blocks a !! n) as [nbr|] eqn:Hnbr; [|done].
  destruct (neighbour_coords origin uvw nbr) as [rst|e]; [|done].
  apply (for_each_final_inv (fun t => t = a)); [|done].
  intros f1 ? Hf1 ->. unfold face_pair.
  destruct (rmap _ (snd f1)) as [rst1|e] eqn:Hrst; [|done].
  rewrite off_plane_negative_tmax; [done..|].
  intros ->. apply rmap_nil in Hrst.
  by apply (Hfaces n nbr f1).
Qed.

End Configuration.

(** C6, as the code has it.  [identify_interfaces] does not validate its
    configuration and has no configuration error; the values are used as
    given.  [lmin] is never read.  With a negative [amin] and a polygon
    engine whose areas are not negative, the pass is the one for
    [amin = 0].  With a negative [tmax] every neighbour face that has a
    vertex is rejected, so the pass leaves the assembly as it was. *)
Theorem configuration_used_as_given {PE : PolygonEngine}
  {SI : SpatialIndex} (a : Assembly) (cfg : config) :
  (∀ l, identify_interfaces a (set_lmin l cfg) = identify_interfaces a cfg) ∧
  ((∀ g, 0 <= area g)%Q -> (amin cfg < 0)%Q ->
   identify_interfaces a cfg = identify_interfaces a (set_amin 0 cfg)) ∧
  (faces_nonempty a -> (tmax cfg < 0)%Q ->
   final (identify_interfaces a cfg) = a).
Proof.
  split; [reflexivity|]. split.
  - apply identify_negative_amin.
  - apply identify_negative_tmax.
Qed.

(** ** A second pass *)

Lemma ext_vertices s s' : ext s s' -> vertices s' = vertices s.
Proof. intros (Hv&_). unfold vertices. by rewrite Hv. Qed.

Lemma for_each_settles {X} V (body : X -> Assembly -> outcome) xs :
  (∀ x, x ∈ xs -> settles V (body x)) -> settles V (for_each body xs).
Proof.
  induction xs as [|x r IH]; intros Hbody s s' HV Hrun.
  { cbn in Hrun. injection Hrun as <-. split; [apply ext_refl|done]. }
  cbn [for_each] in Hrun.
  destruct (body x s) as [s1|e s1] eqn:Hx; [|discriminate].
  destruct (Hbody x (list_elem_of_here _ _) s s1 HV Hx) as [Hext1 Hstay1].
  assert (HV1 : vertices s1 = V) by (by rewrite (ext_vertices _ _ Hext1)).
  destruct (IH (fun y Hy => Hbody y (list_elem_of_further _ _ _ Hy))
              s1 s' HV1 Hrun) as [Hext Hstay].
  split; [by eapply ext_trans|].
  intros s'' Hs''. cbn [for_each].
  rewrite Hstay1 by (by eapply ext_trans). by apply Hstay.
Qed.

Section SecondPass.

Context {PE : PolygonEngine} {SI : SpatialIndex}.
Variable cfg : config.

Lemma face_loop_keeps_edge k n origin uvw p0 rst faces s s' :
  for_each (face_pair cfg k n origin uvw p0 rst) faces s = Returned s' ->
  has_edge s k n = true -> has_edge s' k n = true.
Proof.
  revert s. induction faces as [|f1 r IH]; intros s Hrun Hs.
  { cbn in Hrun. by injection Hrun as <-. }
  cbn [for_each] in Hrun.
  destruct (face_pair cfg k n origin uvw p0 rst f1 s) as [s1|e s1] eqn:Hf;
    [|discriminate].
  apply (IH s1 Hrun).
  destruct (face_pair_cases cfg k n origin uvw p0 rst f1)
    as [H|[[e H]|(p1 & inter & ring & _ & _ & _ & H)]]; rewrite H in Hf.
  - by injection Hf as <-.
  - discriminate.
  - by eapply add_edge_returned.
Qed.

(** A face loop that returned has written the edge, or writes nothing on
    any assembly. *)
Lemma face_loop_settled k n origin uvw p0 rst faces s s' :
  for_each (face_pair cfg k n origin uvw p0 rst) faces s = Returned s' ->
  has_edge s' k n = true ∨
  ∀ t, for_each (face_pair cfg k n origin uvw p0 rst) faces t = Returned t.
Proof.
  revert s. induction faces as [|f1 r IH]; intros s Hrun; [by right|].
  cbn [for_each] in Hrun.
  destruct (face_pair cfg k n origin uvw p0 rst f1 s) as [s1|e s1] eqn:Hf;
    [|discriminate].
  destruct (face_pair_cases cfg k n origin uvw p0 rst f1)
    as [H|[[e H]|(p1 & inter & ring & _ & _ & _ & H)]]; rewrite H in Hf.
  - destruct (IH s1 Hrun) as [Hedge|Hskip]; [by left|right].
    intros t. cbn [for_each]. by rewrite H.
  - discriminate.
  - left. eapply face_loop_keeps_edge; [exact Hrun|].
    by eapply add_edge_returned.
Qed.

Lemma candidate_settles V index_key k origin uvw p0 j :
  k ∈ V -> Forall (fun n => n ∈ V) index_key ->
  settles V (candidate cfg index_key k origin uvw p0 j).
Proof.
  intros Hk Hidx s s' HV Hrun.
  assert (Hext : ext s s').
  { apply (grows_ext cfg).
    replace s' with (final (candidate cfg index_key k origin uvw p0 j s))
      by (by rewrite Hrun).
    apply candidate_grows.
    - apply bool_decide_eq_true. by rewrite HV.
    - eapply Forall_impl; [exact Hidx|]. intros n Hn.
      apply bool_decide_eq_true. by rewrite HV. }
  split; [exact Hext|]. intros s'' Hs''.
  destruct Hext as (_ & Hb & _). destruct Hs'' as (_ & Hb' & He').
  unfold candidate in *.
  destruct (index_key !! j) as [n|]; [|discriminate].
  destruct (Z.eqb n k); [done|].
  destruct (has_edge s k n) eqn:Hkn.
  { injection Hrun as <-. by rewrite (He' k n Hkn). }
  destruct (has_edge s n k) eqn:Hnk.
  { injection Hrun as <-. rewrite (He' n k Hnk).
    by destruct (has_edge s'' k n). }
  destruct (has_edge s'' k n) eqn:Hkn''; [done|].
  destruct (has_edge s'' n k) eqn:Hnk''; [done|].
  rewrite Hb', Hb.
  destruct (blocks s !! n) as [nbr|]; [|discriminate].
  destruct (neighbour_coords origin uvw nbr) as [rst|e]; [|discriminate].
  destruct (face_loop_settled _ _ _ _ _ _ _ _ _ Hrun) as [Hedge|Hskip].
  - apply He' in Hedge. congruence.
  - apply Hskip.
Qed.

Lemma base_face_settles V index_key k block nbrs f0 :
  k ∈ V -> Forall (fun n => n ∈ V) index_key ->
  settles V (base_face cfg index_key k block nbrs f0).
Proof.
  intros Hk Hidx. unfold base_face. destruct f0 as [f0 [origin uvw]].
  destruct (rbind _ _) as [rst0|e]; [|by intros s s' _ ?].
  destruct (Polygon rst0) as [p0|e]; [|by intros s s' _ ?].
  apply for_each_settles. intros j _. by apply candidate_settles.
Qed.

Lemma base_block_settles V keys block_nnbrs k :
  k ∈ V -> Forall (fun n => n ∈ V) keys ->
  settles V (base_block cfg keys block_nnbrs k).
Proof.
  intros Hk Hidx s s' HV Hrun. unfold base_block in *.
  destruct (key_index keys !! k) as [i|]; [|discriminate].
  destruct (blocks s !! k) as [block|] eqn:Hblock; [|discriminate].
  destruct (block_nnbrs !! i) as [[ds nbrs]|]; [|discriminate].
  assert (Hset : settles V
    (if face_face cfg
     then for_each (base_face cfg keys k block nbrs) (block_frames block)
     else Returned)).
  { destruct (face_face cfg).
    - apply for_each_settles. intros f0 _. by apply base_face_settles.
    - intros t t' _ [= <-]. split; [apply ext_refl|done]. }
  assert (Hrun' : (if face_face cfg
     then for_each (base_face cfg keys k block nbrs) (block_frames block)
     else Returned) s = Returned s') by (by destruct (face_face cfg)).
  destruct (Hset s s' HV Hrun') as [Hext Hstay].
  split; [exact Hext|]. intros s'' Hs''.
  destruct Hext as (_ & Hb & _). destruct (Hs'') as (_ & Hb' & _).
  rewrite Hb', Hb, Hblock. specialize (Hstay s'' Hs'').
  by destruct (face_face cfg).
Qed.

Lemma identify_second_pass a a1 :
  identify_interfaces a cfg = Returned a1 ->
  identify_interfaces a1 cfg = Returned a1.
Proof.
  intros Hrun.
  assert (Hext : ext a a1).
  { apply (grows_ext cfg).
    replace a1 with (final (identify_interfaces a cfg)) by (by rewrite Hrun).
    apply identify_grows. }
  destruct (Hext) as (Hv & Hb & _).
  unfold identify_interfaces, vertices, vertex_coordinates in *.
  rewrite Hv, Hb.
  destruct (rmap _ (map fst (vertex a))) as [blks|e]; [|discriminate].
  destruct (rmap _ (map fst (vertex a))) as [cloud|e]; [|discriminate].
  destruct (_find_nearest_neighbours cloud _) as [nnbrs|e]; [|discriminate].
  eapply (for_each_settles (map fst (vertex a))); [|done|exact Hrun|].
  - intros k Hk. apply base_block_settles; [exact Hk|].
    by apply Forall_forall.
  - apply ext_refl.
Qed.

End SecondPass.

(** C7.  Identification is idempotent: when a pass over an assembly --
    without edges, or with some -- returns, a second pass over the result
    returns it as it is, so both passes yield the same edges with the same
    attribute bundles. *)
Theorem identification_idempotent {PE : PolygonEngine} {SI : SpatialIndex}
  (a a1 : Assembly) (cfg : config) :
  no_edges a ->
  identify_interfaces a cfg = Returned a1 ->
  identify_interfaces a1 cfg = Returned a1 ∧
  edge (final (identify_interfaces a1 cfg)) = edge a1.
Proof.
  intros _ Hrun. apply identify_second_pass in Hrun.
  split; [exact Hrun|]. by rewrite Hrun.
Qed.

(** * Adding blocks and supports *)

Lemma assoc_update_vertex k attr (l : list (Z * attrs)) :
  assoc k (update_vertex k attr l) = (fun d => update d attr) <$> assoc k l.
Proof.
  induction l as [|[k' d] r IH]; [done|]. cbn.
  destruct (Z.eqb k' k) eqn:E; cbn; by rewrite E.
Qed.

Lemma assoc_app_fresh {A} k (x : A) (l : list (Z * A)) :
  k ∉ map fst l -> assoc k (l ++ [(k, x)]) = Some x.
Proof.
  induction l as [|[k' y] r IH]; cbn; intros Hk.
  - by rewrite Z.eqb_refl.
  - apply not_elem_of_cons in Hk as [Hne Hk].
    destruct (Z.eqb k' k) eqn:E; [|by apply IH].
    apply Z.eqb_eq in E. congruence.
Qed.

(** A vertex added under a fresh key holds the default vertex attributes,
    updated with [attr_dict], then with the keyword attributes. *)
Lemma add_vertex_fresh a attr_dict kwattr :
  in_vertex a (max_int_key a + 1) = false ->
  let r := add_vertex a None attr_dict kwattr in
  fst r = (max_int_key a + 1)%Z ∧
  assoc (fst r) (vertex (snd r))
  = Some (update (update (default_vertex_attributes a) (or_empty attr_dict))
                 kwattr).
Proof.
  intros Hfresh. unfold add_vertex. cbn [get_vertex_key].
  rewrite Hfresh. cbn [fst snd vertex]. split; [done|].
  rewrite assoc_update_vertex, assoc_app_fresh; cbn.
  - by rewrite update_empty_l.
  - by apply bool_decide_eq_false in Hfresh.
Qed.

Lemma vertex_set_blocks a b : vertex (set_blocks a b) = vertex a.
Proof. done. Qed.

Lemma add_support_node self block attr_dict kwattr :
  in_vertex self (max_int_key self + 1) = false ->
  let r := add_support self block attr_dict kwattr in
  assoc (fst r) (vertex (snd r))
  = Some (update (default_vertex_attributes self)
            (update (xyz_kwattr (block_centroid block))
                    {[ "is_support" := VBool true ]})).
Proof.
  intros Hfresh. unfold add_support.
  pose proof (add_vertex_fresh self None
    (update (xyz_kwattr (block_centroid block))
            {[ "is_support" := VBool true ]}) Hfresh) as [_ H].
  cbn zeta in H. destruct (add_vertex self None None _) as [key self'].
  cbn [fst snd] in *. rewrite vertex_set_blocks, H.
  unfold or_empty; cbn [default from_option id].
  by rewrite update_empty_r.
Qed.

Lemma add_block_node self block attr_dict kwattr :
  in_vertex self (max_int_key self + 1) = false ->
  let r := add_block self block attr_dict kwattr in
  assoc (fst r) (vertex (snd r))
  = Some (update (update (default_vertex_attributes self)
                         (update (or_empty attr_dict) kwattr))
                 (xyz_kwattr (block_centroid block))).
Proof.
  intros Hfresh. unfold add_block.
  pose proof (add_vertex_fresh self
    (Some (update (or_empty attr_dict) kwattr))
    (xyz_kwattr (block_centroid block)) Hfresh) as [_ H].
  cbn zeta in H. destruct (add_vertex self _ _ _) as [key self'].
  cbn [fst snd] in *. by rewrite vertex_set_blocks, H.
Qed.

Lemma dom_xyz_kwattr c : dom (xyz_kwattr c) = {[ "x"; "y"; "z" ]}.
Proof.
  unfold xyz_kwattr. rewrite !dom_insert_L, dom_singleton_L. set_solver.
Qed.

Lemma dom_support_kwattr c :
  dom (update (xyz_kwattr c) {[ "is_support" := VBool true ]})
  = support_fields.
Proof.
  rewrite dom_update, dom_xyz_kwattr, dom_singleton_L.
  unfold support_fields. vm_compute. reflexivity.
Qed.

(** C10.  [add_support] takes [attr_dict] and keyword attributes and
    discards them: whatever is passed, the result is the one for no
    attributes, and the vertex added (under a fresh key, in an assembly
    whose default vertex attributes are those of [Assembly.__init__])
    holds the centroid of the block and [is_support = True], nothing
    else.  [add_block] applies what it is given: its vertex holds the
    default attributes updated with [attr_dict], the keyword attributes
    and the centroid. *)
Theorem add_support_discards_attributes (self : Assembly) (block : Block)
  (attr_dict : option attrs) (kwattr : attrs) :
  in_vertex self (max_int_key self + 1) = false ->
  dom (default_vertex_attributes self) ⊆ support_fields ->
  let r := add_support self block attr_dict kwattr in
  let rb := add_block self block attr_dict kwattr in
  let c := block_centroid block in
  r = add_support self block None ∅ ∧
  (∃ node, assoc (fst r) (vertex (snd r)) = Some node ∧
     dom node = support_fields ∧
     node !! "x" = Some (VNum (vx c)) ∧
     node !! "y" = Some (VNum (vy c)) ∧
     node !! "z" = Some (VNum (vz c)) ∧
     node !! "is_support" = Some (VBool true)) ∧
  (∃ node, assoc (fst rb) (vertex (snd rb)) = Some node ∧
     node = update (update (default_vertex_attributes self)
                           (update (or_empty attr_dict) kwattr))
                   (xyz_kwattr c) ∧
     ∀ i x, i ∉ ({[ "x"; "y"; "z" ]} : gset string) ->
            update (or_empty attr_dict) kwattr !! i = Some x ->
            node !! i = Some x).
Proof.
  intros Hfresh Hdom r rb c. split; [reflexivity|]. split.
  - eexists. split; [by apply add_support_node|].
    fold c. rewrite update_covered by (by rewrite dom_support_kwattr).
    split; [apply dom_support_kwattr|].
    unfold xyz_kwattr, update. repeat split; by simplify_map_eq.
  - eexists. split; [by apply add_block_node|]. split; [reflexivity|].
    intros i x Hi Hx. fold c.
    rewrite update_lookup_old.
    + by apply update_lookup_new.
    + apply not_elem_of_dom. by rewrite dom_xyz_kwattr.
Qed.

(** * The claims on the example assemblies *)

Section Worked.

Import Examples.

Lemma faces_nonemptyb_sound a : faces_nonemptyb a = true -> faces_nonempty a.
Proof.
  unfold faces_nonemptyb, faces_nonempty. intros Hb n nbr f Hn Hf.
  rewrite forallb_forall in Hb.
  assert (Hin : In (n, nbr) (map_to_list (blocks a))).
  { apply list_elem_of_In. by apply elem_of_map_to_list. }
  apply Hb in Hin. cbn in Hin. rewrite forallb_forall in Hin.
  specialize (Hin f). destruct (snd f); [|done].
  discriminate Hin. by apply list_elem_of_In.
Qed.

Lemma convex_area_nonneg (g : @geom Convex.engine) :
  (0 <= @area Convex.engine g)%Q.
Proof.
  cbn. unfold Convex.area. rewrite Qred_correct.
  apply Qle_shift_div_l; [reflexivity|].
  rewrite Qmult_0_l. apply Qabs_nonneg.
Qed.

Lemma stack2_no_edges : no_edges stack2.
Proof. apply no_edgesb_sound. vm_compute. reflexivity. Qed.

Lemma stack2_edge_before : edge_data stack2 0 1 = None.
Proof. apply stack2_no_edges. Qed.

End Worked.

(** The two cubes have no edge before the pass and one after it, from the
    lower to the upper cube only. *)
Lemma no_duplicate_interfaces_witness :
  at_most_one Examples.stack2 ∧
  at_most_one
    (final (Examples.run Examples.stack2 default_config)) ∧
  has_edge (final (Examples.run Examples.stack2 default_config)) 0 1 = true.
Proof.
  assert (H : at_most_one Examples.stack2)
    by apply no_edges_at_most_one, stack2_no_edges.
  split; [exact H|]. split.
  - exact (proj1 (@no_duplicate_interfaces Convex.engine BruteForce.index
                    Examples.stack2 default_config H)).
  - vm_compute. reflexivity.
Defined.



(** A face with vertices exactly [tmax] off the plane is not rejected;
    one with a vertex [tmax + 1e-12] off the plane is.  Over the top face
    of the first cube, a unit square with vertices exactly [tmax] off the
    plane is written as an interface; with one vertex [1e-12] further off,
    the assembly is left as it is. *)
Lemma coplanarity_tolerance_witness :
  off_plane (tmax default_config) Examples.at_tolerance = false ∧
  off_plane (tmax default_config) Examples.beyond_tolerance = true ∧
  (∃ attr,
     @face_pair Convex.engine default_config 0 1 Examples.top_origin
       Examples.top_uvw Examples.top_p0
       (Examples.rst_of Examples.square_at_tolerance) Examples.square
       Examples.stack2
     = add_edge Examples.stack2 0 1 (Some attr) ∅) ∧
  @face_pair Convex.engine default_config 0 1 Examples.top_origin
    Examples.top_uvw Examples.top_p0
    (Examples.rst_of Examples.square_beyond_tolerance) Examples.square
    Examples.stack2
  = Returned Examples.stack2.
Proof.
  split_and!.
  - apply (proj1 (proj2 (@coplanarity_tolerance Convex.engine
                           default_config Examples.at_tolerance))).
    repeat constructor; vm_compute; discriminate.
  - apply (proj1 (proj2 (proj2 (@coplanarity_tolerance Convex.engine
                           default_config Examples.beyond_tolerance)))
             (0, 1, 1000001 # 1000000000000)%Q (1 # 1000000000000)%Q).
    + unfold Examples.beyond_tolerance.
      do 2 apply list_elem_of_further. apply list_elem_of_here.
    + reflexivity.
    + vm_compute. reflexivity.
  - destruct (proj2 (proj2 (proj2 (@coplanarity_tolerance Convex.engine
             default_config Examples.square_at_tolerance)))
             0%Z 1%Z Examples.top_origin Examples.top_uvw Examples.top_p0
             (Examples.rst_of Examples.square_at_tolerance) Examples.square
             Examples.stack2) as [_ Hin].
    { vm_compute. reflexivity. }
    destruct Hin as [_ Hin]; [vm_compute; reflexivity|].
    apply (Hin Examples.square_p1 Examples.square_inter
             Examples.square_ring).
    + vm_compute. reflexivity.
    + intros H. vm_compute in H. discriminate H.
    + vm_compute. reflexivity.
    + vm_compute. reflexivity.
    + vm_compute. discriminate.
    + vm_compute. reflexivity.
  - destruct (proj2 (proj2 (proj2 (@coplanarity_tolerance Convex.engine
             default_config Examples.square_beyond_tolerance)))
             0%Z 1%Z Examples.top_origin Examples.top_uvw Examples.top_p0
             (Examples.rst_of Examples.square_beyond_tolerance)
             Examples.square Examples.stack2) as [Hout _].
    { vm_compute. reflexivity. }
    apply Hout. vm_compute. reflexivity.
Defined.

(** The exhaustive index, as any nearest-neighbour search over the
    centroids, lists the queried block itself among its neighbours; the
    pass over the two cubes still creates no edge from a block to
    itself. *)
Lemma index_returns_queried_block :
  snd (BruteForce.nearest [(1 # 2, 1 # 2, 1 # 2); (1 # 2, 1 # 2, 3 # 2)]%Q
         (1 # 2, 1 # 2, 1 # 2)%Q 2) = [0; 1]%nat ∧
  has_edge (final (Examples.run Examples.stack2 default_config)) 0 0 = false ∧
  has_edge (final (Examples.run Examples.stack2 default_config)) 1 1 = false.
Proof. repeat split; vm_compute; reflexivity. Qed.

(** C4, counterexample.  The edge the default pass writes between the two
    cubes was not there before, and its attribute bundle is not made of
    the five interface fields only: it has [interface_forces] too, from
    the default edge attributes. *)
Lemma interface_bundle_extra_fields :
  edge_data (final (Examples.run Examples.stack2 default_config)) 0 1
    = Some Examples.stack2_interface ∧
  edge_data Examples.stack2 0 1 = None ∧
  Examples.stack2_interface !! "interface_forces" = Some VNone ∧
  dom Examples.stack2_interface ≠ interface_fields.
Proof.
  assert (H : Examples.stack2_interface !! "interface_forces" = Some VNone)
    by (vm_compute; reflexivity).
  split; [vm_compute; reflexivity|].
  split; [vm_compute; reflexivity|].
  split; [exact H|].
  intros Hdom.
  assert (Hin : "interface_forces" ∈ dom Examples.stack2_interface)
    by (apply elem_of_dom; by eexists).
  assert (Hnot : "interface_forces" ∉ interface_fields)
    by (apply (proj1 (bool_decide_eq_false
                        ("interface_forces" ∈ interface_fields)));
        vm_compute; reflexivity).
  apply Hnot. by rewrite <- Hdom.
Qed.

Lemma interface_attribute_bundle_witness :
  Examples.stack2_interface !! "interface_type" = Some (VStr "face_face") ∧
  dom Examples.stack2_interface
  = interface_fields ∪ dom (default_edge_attributes Examples.stack2).
Proof.
  destruct (@interface_attribute_bundle Convex.engine BruteForce.index
              Examples.stack2 default_config 0%Z 1%Z
              Examples.stack2_interface ltac:(vm_compute; reflexivity))
    as [H|(p0 & p1 & inter & ring & origin & uvw & _ & _ & Ht & _ & _ & _
           & _ & _ & Hdom & _)].
  - rewrite stack2_edge_before in H. discriminate H.
  - split; [exact Ht|exact Hdom].
Defined.

(** C5, counterexample.  The first cube is given one more face, a
    degenerate one with a singular frame, listed first.  The pass does not
    skip it: it raises [LinAlgError] and leaves the assembly without any
    edge, while the pass over the same cubes without that face finds the
    interface between them. *)
Lemma degenerate_face_aborts_run :
  Examples.run Examples.stack2_degenerate default_config
    = Raised LinAlgError Examples.stack2_degenerate ∧
  no_edges Examples.stack2_degenerate ∧
  has_edge (final (Examples.run Examples.stack2 default_config)) 0 1 = true.
Proof.
  split; [vm_compute; reflexivity|].
  split; [|vm_compute; reflexivity].
  apply no_edgesb_sound. vm_compute. reflexivity.
Qed.

Lemma singular_frame_aborts_witness :
  ∃ e a',
    Examples.run Examples.stack2_degenerate default_config = Raised e a' ∧
    @grows Convex.engine default_config Examples.stack2_degenerate a'.
Proof.
  apply (proj1 (@singular_frame_aborts Convex.engine BruteForce.index
    Examples.stack2_degenerate default_config 0%Z
    Examples.cube0_degenerate 6%Z (1 # 3, 0, 0)%Q
    ((1, 0, 0), (0, 0, 0), (0, 0, 0))%Q
    ltac:(reflexivity)
    ltac:(apply list_elem_of_here)
    ltac:(vm_compute; reflexivity)
    ltac:(apply list_elem_of_here)
    ltac:(vm_compute; reflexivity))).
Defined.

(** C6, counterexample.  A negative [amin] (and a negative [tmax]) is not
    refused: the pass returns, and with [amin = -1] it has written the
    edge between the two cubes. *)
Lemma negative_amin_is_not_refused :
  invalid_config Examples.negative_amin ∧
  Examples.run Examples.stack2 Examples.negative_amin
    = Returned (final (Examples.run Examples.stack2 Examples.negative_amin)) ∧
  has_edge (final (Examples.run Examples.stack2 Examples.negative_amin)) 0 1
    = true ∧
  has_edge Examples.stack2 0 1 = false ∧
  invalid_config Examples.negative_tmax ∧
  Examples.run Examples.stack2 Examples.negative_tmax
    = Returned Examples.stack2.
Proof.
  repeat split; try (vm_compute; reflexivity).
  - right; right; left. reflexivity.
  - right; left. reflexivity.
Qed.

Lemma configuration_used_as_given_witness :
  Examples.run Examples.stack2 Examples.negative_amin
    = Examples.run Examples.stack2 (set_amin 0 Examples.negative_amin) ∧
  final (Examples.run Examples.stack2 Examples.negative_tmax)
    = Examples.stack2.
Proof.
  split.
  - apply (proj1 (proj2 (@configuration_used_as_given Convex.engine
             BruteForce.index Examples.stack2 Examples.negative_amin))).
    + exact convex_area_nonneg.
    + reflexivity.
  - apply (proj2 (proj2 (@configuration_used_as_given Convex.engine
             BruteForce.index Examples.stack2 Examples.negative_tmax))).
    + apply faces_nonemptyb_sound. vm_compute. reflexivity.
    + reflexivity.
Defined.

(** A second pass over the two cubes returns what the first pass
    returned. *)
Lemma identification_idempotent_witness :
  let a1 := final (Examples.run Examples.stack2 default_config) in
  Examples.run a1 default_config = Returned a1 ∧
  edge (final (Examples.run a1 default_config)) = edge a1.
Proof.
  apply (@identification_idempotent Convex.engine BruteForce.index
           Examples.stack2).
  - exact stack2_no_edges.
  - vm_compute. reflexivity.
Defined.


(** On a new assembly, [add_support] with a name and a course gives what
    it gives without them. *)
Lemma add_support_discards_attributes_witness :
  add_support Assembly_init Examples.cube0 (Some Examples.name_attr)
    Examples.course_kwattr
  = add_support Assembly_init Examples.cube0 None ∅.
Proof.
  apply (add_support_discards_attributes Assembly_init Examples.cube0
           (Some Examples.name_attr) Examples.course_kwattr).
  - reflexivity.
  - apply (bool_decide_unpack
             (dom (default_vertex_attributes Assembly_init)
              ⊆ support_fields)).
    vm_compute. exact I.
Defined.

(** * Further properties: building an assembly *)

Lemma assoc_app_other {A} k k' (x : A) (l : list (Z * A)) :
  k' ≠ k -> assoc k' (l ++ [(k, x)]) = assoc k' l.
Proof.
  intros Hne. induction l as [|[k0 y] r IH]; cbn.
  - destruct (Z.eqb k k') eqn:E; [|done].
    apply Z.eqb_eq in E. congruence.
  - by rewrite IH.
Qed.

Lemma update_vertex_app_fresh k attr d (l : list (Z * attrs)) :
  k ∉ map fst l ->
  update_vertex k attr (l ++ [(k, d)]) = l ++ [(k, update d attr)].
Proof.
  induction l as [|[k' y] r IH]; cbn; intros Hk.
  - by rewrite Z.eqb_refl.
  - apply not_elem_of_cons in Hk as [Hne Hk].
    destruct (Z.eqb k' k) eqn:E.
    + apply Z.eqb_eq in E. congruence.
    + by rewrite IH.
Qed.

(** What [add_vertex] builds under the next integer key when that key is
    not a vertex yet. *)
Lemma add_vertex_fresh_eq a attr_dict kwattr :
  in_vertex a (max_int_key a + 1) = false ->
  add_vertex a None attr_dict kwattr =
  ((max_int_key a + 1)%Z,
   {| vertex := vertex a ++
        [((max_int_key a + 1)%Z,
          update (update (default_vertex_attributes a) (or_empty attr_dict))
                 kwattr)];
      edge := <[(max_int_key a + 1)%Z := ∅]> (edge a);
      max_int_key := max_int_key a + 1;
      default_vertex_attributes := default_vertex_attributes a;
      default_edge_attributes := default_edge_attributes a;
      blocks := blocks a |}).
Proof.
  intros Hfresh. unfold add_vertex. cbn [get_vertex_key].
  rewrite Hfresh. rewrite update_vertex_app_fresh, update_empty_l; [done|].
  by apply bool_decide_eq_false in Hfresh.
Qed.

(** A vertex added under a fresh key with the attributes [node]: what
    [add_block] and [add_support] leave behind. *)
Lemma consistent_fresh_key a :
  consistent a -> in_vertex a (max_int_key a + 1) = false.
Proof.
  intros (_ & Hmax & _). apply bool_decide_eq_false. intros Hk.
  apply Hmax in Hk. lia.
Qed.

Lemma vertex_coordinates_node (l : list (Z * attrs)) a k node c :
  vertex a = l ++ [(k, node)] -> k ∉ map fst l ->
  node !! "x" = Some (VNum (vx c)) ->
  node !! "y" = Some (VNum (vy c)) ->
  node !! "z" = Some (VNum (vz c)) ->
  vertex_coordinates a k = Ok c.
Proof.
  intros Hv Hk Hx Hy Hz. unfold vertex_coordinates.
  rewrite Hv, assoc_app_fresh by done. cbn.
  rewrite Hx, Hy, Hz. cbn. by destruct c as [[? ?] ?].
Qed.

Lemma vertex_coordinates_other (l : list (Z * attrs)) a a' k node k' :
  vertex a' = vertex a ++ [(k, node)] -> k' ≠ k ->
  vertex_coordinates a' k' = vertex_coordinates a k'.
Proof.
  intros Hv Hne. unfold vertex_coordinates.
  by rewrite Hv, assoc_app_other.
Qed.

Lemma xyz_kwattr_lookup c :
  xyz_kwattr c !! "x" = Some (VNum (vx c)) ∧
  xyz_kwattr c !! "y" = Some (VNum (vy c)) ∧
  xyz_kwattr c !! "z" = Some (VNum (vz c)).
Proof. unfold xyz_kwattr. repeat split; by simplify_map_eq. Qed.

(** The assembly after a vertex with coordinates [c] and a block were
    added under the next key. *)
Lemma consistent_extend a node block c :
  consistent a ->
  node !! "x" = Some (VNum (vx c)) ->
  node !! "y" = Some (VNum (vy c)) ->
  node !! "z" = Some (VNum (vz c)) ->
  consistent
    {| vertex := vertex a ++ [((max_int_key a + 1)%Z, node)];
       edge := <[(max_int_key a + 1)%Z := ∅]> (edge a);
       max_int_key := max_int_key a + 1;
       default_vertex_attributes := default_vertex_attributes a;
       default_edge_attributes := default_edge_attributes a;
       blocks := <[(max_int_key a + 1)%Z := block]> (blocks a) |}.
Proof.
  intros Hc Hx Hy Hz.
  pose proof (consistent_fresh_key a Hc) as Hfresh.
  apply bool_decide_eq_false in Hfresh.
  destruct Hc as (Hnd & Hmax & Hbl & Hed & Hco).
  set (k := (max_int_key a + 1)%Z) in *.
  set (a' := Build_Assembly _ _ _ _ _ _).
  assert (Hvs : vertices a' = vertices a ++ [k]).
  { unfold vertices, a'. cbn. by rewrite map_app. }
  unfold consistent. rewrite Hvs. repeat split.
  - apply NoDup_app. repeat split; [done| |apply NoDup_singleton].
    intros x Hx' Hk%list_elem_of_singleton. by subst.
  - intros x [Hx'| ->%list_elem_of_singleton]%elem_of_app; cbn.
    + apply Hmax in Hx'. lia.
    + lia.
  - intros [Hx'| ->%list_elem_of_singleton]%elem_of_app; cbn.
    + destruct (decide (k = k0)) as [<-|Hne]; [done|].
      rewrite lookup_insert_ne by done. by apply Hbl.
    + by rewrite lookup_insert_eq.
  - cbn. destruct (decide (k = k0)) as [<-|Hne].
    + intros _. apply elem_of_app. right. by apply list_elem_of_singleton.
    + rewrite lookup_insert_ne by done. intros Hb%Hbl.
      apply elem_of_app. by left.
  - intros [Hx'| ->%list_elem_of_singleton]%elem_of_app; cbn.
    + destruct (decide (k = k0)) as [<-|Hne]; [done|].
      rewrite lookup_insert_ne by done. by apply Hed.
    + by rewrite lookup_insert_eq.
  - cbn. destruct (decide (k = k0)) as [<-|Hne].
    + intros _. apply elem_of_app. right. by apply list_elem_of_singleton.
    + rewrite lookup_insert_ne by done. intros Hb%Hed.
      apply elem_of_app. by left.
  - intros x [Hx'| ->%list_elem_of_singleton]%elem_of_app.
    + destruct (decide (x = k)) as [->|Hne]; [done|].
      rewrite (vertex_coordinates_other (vertex a) a a' k node) by done.
      by apply Hco.
    + exists c. by apply (vertex_coordinates_node (vertex a) a' k node).
Qed.

Lemma consistent_init : consistent Assembly_init.
Proof.
  unfold consistent, vertices. cbn. repeat split.
  - apply NoDup_nil_2.
  - by intros k Hk%elem_of_nil.
  - by intros Hk%elem_of_nil.
  - rewrite lookup_empty. by intros [? ?].
  - by intros Hk%elem_of_nil.
  - rewrite lookup_empty. by intros [? ?].
  - by intros k Hk%elem_of_nil.
Qed.

Lemma add_block_eq self block attr_dict kwattr :
  in_vertex self (max_int_key self + 1) = false ->
  add_block self block attr_dict kwattr =
  ((max_int_key self + 1)%Z,
   {| vertex := vertex self ++
        [((max_int_key self + 1)%Z,
          update (update (default_vertex_attributes self)
                         (update (or_empty attr_dict) kwattr))
                 (xyz_kwattr (block_centroid block)))];
      edge := <[(max_int_key self + 1)%Z := ∅]> (edge self);
      max_int_key := max_int_key self + 1;
      default_vertex_attributes := default_vertex_attributes self;
      default_edge_attributes := default_edge_attributes self;
      blocks := <[(max_int_key self + 1)%Z := block]> (blocks self) |}).
Proof.
  intros Hfresh. unfold add_block.
  by rewrite (add_vertex_fresh_eq _ _ _ Hfresh).
Qed.

Lemma add_support_eq self block attr_dict kwattr :
  in_vertex self (max_int_key self + 1) = false ->
  add_support self block attr_dict kwattr =
  ((max_int_key self + 1)%Z,
   {| vertex := vertex self ++
        [((max_int_key self + 1)%Z,
          update (default_vertex_attributes self)
                 (update (xyz_kwattr (block_centroid block))
                         {[ "is_support" := VBool true ]}))];
      edge := <[(max_int_key self + 1)%Z := ∅]> (edge self);
      max_int_key := max_int_key self + 1;
      default_vertex_attributes := default_vertex_attributes self;
      default_edge_attributes := default_edge_attributes self;
      blocks := <[(max_int_key self + 1)%Z := block]> (blocks self) |}).
Proof.
  intros Hfresh. unfold add_support.
  rewrite (add_vertex_fresh_eq _ _ _ Hfresh).
  unfold or_empty; cbn [default from_option id].
  by rewrite update_empty_r.
Qed.

Lemma add_block_consistent self block attr_dict kwattr :
  consistent self ->
  consistent (snd (add_block self block attr_dict kwattr)).
Proof.
  intros Hc.
  rewrite (add_block_eq _ _ _ _ (consistent_fresh_key _ Hc)). cbn [snd].
  destruct (xyz_kwattr_lookup (block_centroid block)) as (Hx & Hy & Hz).
  apply (consistent_extend _ _ _ (block_centroid block) Hc);
    by apply update_lookup_new.
Qed.

Lemma support_kwattr_lookup c :
  update (xyz_kwattr c) {[ "is_support" := VBool true ]} !! "x"
    = Some (VNum (vx c)) ∧
  update (xyz_kwattr c) {[ "is_support" := VBool true ]} !! "y"
    = Some (VNum (vy c)) ∧
  update (xyz_kwattr c) {[ "is_support" := VBool true ]} !! "z"
    = Some (VNum (vz c)) ∧
  update (xyz_kwattr c) {[ "is_support" := VBool true ]} !! "is_support"
    = Some (VBool true).
Proof. unfold xyz_kwattr, update. repeat split; by simplify_map_eq. Qed.

Lemma add_support_consistent self block attr_dict kwattr :
  consistent self ->
  consistent (snd (add_support self block attr_dict kwattr)).
Proof.
  intros Hc.
  rewrite (add_support_eq _ _ _ _ (consistent_fresh_key _ Hc)). cbn [snd].
  destruct (support_kwattr_lookup (block_centroid block))
    as (Hx & Hy & Hz & _).
  apply (consistent_extend _ _ _ (block_centroid block) Hc);
    by apply update_lookup_new.
Qed.

Lemma edge_data_insert_empty a a' k :
  edge a' = <[k := ∅]> (edge a) -> edge a !! k = None ->
  ∀ u v, edge_data a' u v = edge_data a u v.
Proof.
  intros He Hk u v. unfold edge_data. rewrite He.
  destruct (decide (k = u)) as [<-|Hne].
  - by rewrite lookup_insert_eq, Hk.
  - by rewrite lookup_insert_ne.
Qed.

Lemma consistent_no_edge_entry a :
  consistent a -> edge a !! (max_int_key a + 1)%Z = None.
Proof.
  intros Hc. pose proof (consistent_fresh_key _ Hc) as Hf.
  apply bool_decide_eq_false in Hf.
  destruct Hc as (_ & _ & _ & Hed & _).
  apply eq_None_not_Some. intros Hs. by apply Hed in Hs.
Qed.

(** The effect of [add_block] on a consistent assembly. *)
Lemma add_block_effect (self : Assembly) (block : Block)
  (attr_dict : option attrs) (kwattr : attrs) :
  consistent self ->
  let r := add_block self block attr_dict kwattr in
  fst r = (max_int_key self + 1)%Z ∧
  (fst r ∉ vertices self) ∧
  vertices (snd r) = vertices self ++ [fst r] ∧
  blocks (snd r) !! fst r = Some block ∧
  vertex_coordinates (snd r) (fst r) = Ok (block_centroid block) ∧
  edge (snd r) !! fst r = Some ∅ ∧
  (∀ k, k ∈ vertices self ->
        blocks (snd r) !! k = blocks self !! k ∧
        assoc k (vertex (snd r)) = assoc k (vertex self)) ∧
  (∀ u v, edge_data (snd r) u v = edge_data self u v) ∧
  consistent (snd r).
Proof.
  intros Hc r.
  pose proof (add_block_consistent self block attr_dict kwattr Hc) as Hc'.
  pose proof (consistent_fresh_key _ Hc) as Hfresh.
  pose proof (consistent_no_edge_entry _ Hc) as Hnone.
  fold r in Hc'. subst r. revert Hc'.
  rewrite (add_block_eq _ _ _ _ Hfresh). cbn [fst snd]. intros Hc'.
  apply bool_decide_eq_false in Hfresh.
  destruct (xyz_kwattr_lookup (block_centroid block)) as (Hx & Hy & Hz).
  split_and!; try done.
  - unfold vertices. cbn. by rewrite map_app.
  - cbn. by rewrite lookup_insert_eq.
  - eapply (vertex_coordinates_node (vertex self)); [done|done|..];
      by apply update_lookup_new.
  - cbn. by rewrite lookup_insert_eq.
  - intros k Hk. split; cbn.
    + rewrite lookup_insert_ne; [done|]. intros <-. done.
    + rewrite assoc_app_other; [done|]. intros ->. done.
  - by apply (edge_data_insert_empty self _ (max_int_key self + 1)%Z).
Qed.

(** X1.  [add_block] on a consistent assembly: the block is registered
    under the next integer key, which was not a vertex; the new vertex
    comes last, has no edges, and its coordinates read back as the
    centroid of the block whatever attributes were passed (an [x], [y] or
    [z] among them is overridden); the vertices, blocks and edges there
    were are untouched, and the assembly stays consistent. *)
Theorem add_block_registers (self : Assembly) (block : Block)
  (attr_dict : option attrs) (kwattr : attrs) :
  consistent self ->
  let r := add_block self block attr_dict kwattr in
  fst r = (max_int_key self + 1)%Z ∧
  (fst r ∉ vertices self) ∧
  vertices (snd r) = vertices self ++ [fst r] ∧
  blocks (snd r) !! fst r = Some block ∧
  vertex_coordinates (snd r) (fst r) = Ok (block_centroid block) ∧
  edge (snd r) !! fst r = Some ∅ ∧
  (∀ k, k ∈ vertices self ->
        blocks (snd r) !! k = blocks self !! k ∧
        assoc k (vertex (snd r)) = assoc k (vertex self)) ∧
  (∀ u v, edge_data (snd r) u v = edge_data self u v) ∧
  consistent (snd r).
Proof. apply add_block_effect. Qed.

(** X2.  [add_support] on a consistent assembly registers the block like
    [add_block]: next integer key, new vertex last, coordinates the
    centroid, [is_support] set, no edges, everything else untouched, the
    assembly still consistent. *)
Theorem add_support_registers (self : Assembly) (block : Block)
  (attr_dict : option attrs) (kwattr : attrs) :
  consistent self ->
  let r := add_support self block attr_dict kwattr in
  fst r = (max_int_key self + 1)%Z ∧
  (fst r ∉ vertices self) ∧
  vertices (snd r) = vertices self ++ [fst r] ∧
  blocks (snd r) !! fst r = Some block ∧
  vertex_coordinates (snd r) (fst r) = Ok (block_centroid block) ∧
  (∃ node, assoc (fst r) (vertex (snd r)) = Some node ∧
           node !! "is_support" = Some (VBool true)) ∧
  edge (snd r) !! fst r = Some ∅ ∧
  (∀ k, k ∈ vertices self ->
        blocks (snd r) !! k = blocks self !! k ∧
        assoc k (vertex (snd r)) = assoc k (vertex self)) ∧
  (∀ u v, edge_data (snd r) u v = edge_data self u v) ∧
  consistent (snd r).
Proof.
  intros Hc r.
  pose proof (add_support_consistent self block attr_dict kwattr Hc) as Hc'.
  pose proof (consistent_fresh_key _ Hc) as Hfresh.
  pose proof (consistent_no_edge_entry _ Hc) as Hnone.
  fold r in Hc'. subst r. revert Hc'.
  rewrite (add_support_eq _ _ _ _ Hfresh). cbn [fst snd]. intros Hc'.
  apply bool_decide_eq_false in Hfresh.
  destruct (support_kwattr_lookup (block_centroid block))
    as (Hx & Hy & Hz & Hs).
  split_and!; try done.
  - unfold vertices. cbn. by rewrite map_app.
  - cbn. by rewrite lookup_insert_eq.
  - eapply (vertex_coordinates_node (vertex self)); [done|done|..];
      by apply update_lookup_new.
  - eexists. split; [cbn; by apply assoc_app_fresh|].
    by apply update_lookup_new.
  - cbn. by rewrite lookup_insert_eq.
  - intros k Hk. split; cbn.
    + rewrite lookup_insert_ne; [done|]. intros <-. done.
    + rewrite assoc_app_other; [done|]. intros ->. done.
  - by apply (edge_data_insert_empty self _ (max_int_key self + 1)%Z).
Qed.

Lemma vertex_coordinates_assoc a a' k :
  assoc k (vertex a') = assoc k (vertex a) ->
  vertex_coordinates a' k = vertex_coordinates a k.
Proof. intros H. unfold vertex_coordinates. by rewrite H. Qed.

(** Blocks added one after the other to a consistent assembly. *)
Lemma add_blocks_spec (items : list (Block * option attrs)) a :
  consistent a ->
  let a' := foldl (fun s it => snd (add_block s (fst it) (snd it) ∅))
                  a items in
  consistent a' ∧
  vertices a' =
    vertices a ++
    ((fun i => (max_int_key a + 1 + Z.of_nat i)%Z) <$> seq 0 (length items)) ∧
  (∀ i it, items !! i = Some it ->
     blocks a' !! (max_int_key a + 1 + Z.of_nat i)%Z = Some (fst it) ∧
     vertex_coordinates a' (max_int_key a + 1 + Z.of_nat i)%Z
     = Ok (block_centroid (fst it))) ∧
  (∀ k, k ∈ vertices a ->
     blocks a' !! k = blocks a !! k ∧
     assoc k (vertex a') = assoc k (vertex a)) ∧
  (∀ u v, edge_data a' u v = edge_data a u v).
Proof.
  revert a. induction items as [|[b ad] items IH]; intros a Hc; cbn zeta.
  { cbn. rewrite app_nil_r. by split_and!. }
  cbn [foldl fst snd].
  destruct (add_block_effect a b ad ∅ Hc)
    as (Hk & Hfresh & Hvs & Hb & Hco & _ & Hold & Hed & Hc1).
  set (a1 := snd (add_block a b ad ∅)) in *.
  assert (Hmax : max_int_key a1 = (max_int_key a + 1)%Z).
  { unfold a1. by rewrite (add_block_eq _ _ _ _ (consistent_fresh_key _ Hc)). }
  rewrite Hk in *.
  destruct (IH a1 Hc1) as (Hc' & Hvs' & Hnew & Hold' & Hed').
  split_and!.
  - exact Hc'.
  - rewrite Hvs', Hvs, <- app_assoc. f_equal. cbn [length seq fmap list_fmap].
    rewrite Z.add_0_r. cbn [app]. f_equal.
    rewrite <- fmap_S_seq, <- list_fmap_compose.
    apply list_fmap_ext. intros i x _. unfold compose. cbv beta.
    rewrite Hmax. lia.
  - intros [|i] it Hit; cbn in Hit.
    + injection Hit as <-. cbn [fst]. rewrite Z.add_0_r.
      assert (Hin : (max_int_key a + 1)%Z ∈ vertices a1).
      { rewrite Hvs. apply elem_of_app. right. by apply list_elem_of_singleton. }
      destruct (Hold' _ Hin) as [-> Has].
      split; [done|]. by rewrite (vertex_coordinates_assoc _ _ _ Has).
    + destruct (Hnew i it Hit) as [Hb' Hco'].
      replace (max_int_key a + 1 + Z.of_nat (S i))%Z
        with (max_int_key a1 + 1 + Z.of_nat i)%Z by lia.
      by split.
  - intros k Hk'.
    assert (Hin : k ∈ vertices a1).
    { rewrite Hvs. apply elem_of_app. by left. }
    destruct (Hold' _ Hin) as [-> ->]. by apply Hold.
  - intros u v. by rewrite Hed', Hed.
Qed.

(** X3.  Blocks added one after the other to a new assembly get the keys
    0, 1, 2, ... in the order they were added: the vertices are these
    keys, key [i] is registered to the [i]-th block and its coordinates
    are the centroid of that block; the assembly has no edges and is
    consistent. *)
Theorem new_assembly_from_blocks (items : list (Block * option attrs)) :
  let a := foldl (fun s it => snd (add_block s (fst it) (snd it) ∅))
             Assembly_init items in
  vertices a = Z.of_nat <$> seq 0 (length items) ∧
  (∀ i it, items !! i = Some it ->
     blocks a !! Z.of_nat i = Some (fst it) ∧
     vertex_coordinates a (Z.of_nat i) = Ok (block_centroid (fst it))) ∧
  no_edges a ∧
  consistent a.
Proof.
  destruct (add_blocks_spec items Assembly_init consistent_init)
    as (Hc & Hvs & Hnew & _ & Hed).
  cbn zeta. split_and!.
  - rewrite Hvs. cbn. apply list_fmap_ext. intros i x _. lia.
  - intros i it Hit. destruct (Hnew i it Hit) as [Hb Hco].
    cbn in Hb, Hco.
    replace (-1 + 1 + Z.of_nat i)%Z with (Z.of_nat i) in * by lia.
    by split.
  - intros u v. rewrite Hed. unfold edge_data. cbn. by rewrite lookup_empty.
  - exact Hc.
Qed.

Lemma new_assembly_from_blocks_witness :
  blocks Examples.stack2 !! 1%Z = Some Examples.cube1 ∧
  vertex_coordinates Examples.stack2 1 = Ok (block_centroid Examples.cube1).
Proof.
  apply (proj1 (proj2 (new_assembly_from_blocks
    [(Examples.cube0, None); (Examples.cube1, None)])) 1%nat
    (Examples.cube1, None)).
  reflexivity.
Defined.

(** * Further properties: the pass *)

Lemma same_keys_refl s : same_keys s s.
Proof. by repeat split. Qed.

Lemma traced_refl a : traced a a.
Proof. split; [apply same_keys_refl|]. intros u v d Hd. by left. Qed.

Lemma in_vertex_elem_of a k : in_vertex a k = true ↔ k ∈ vertices a.
Proof. unfold in_vertex. apply bool_decide_eq_true. Qed.

Lemma Forall_removelast {A} (P : A -> Prop) (l : list A) :
  Forall P l -> Forall P (removelast l).
Proof.
  induction 1 as [|x l Hx Hl IH]; [constructor|].
  cbn. destruct l; [constructor|]. by constructor.
Qed.

(** A local point with third coordinate zero is mapped into the plane of
    the frame. *)
Lemma coplanar_global_flatten o uvw p :
  coplanar o uvw (global1 o uvw (flatten p)).
Proof.
  destruct uvw as [[[[ux uy] uz] [[vx' vy'] vz']] [[wx wy] wz]].
  destruct o as [[ox oy] oz], p as [[px py] pz].
  exists px, py.
  unfold veq, global1, flatten, vadd, vscale, vx, vy, vz. cbn [fst snd].
  repeat split; ring.
Qed.

Lemma interface_points_coplanar o uvw ring :
  Forall (coplanar o uvw)
    (removelast (global_coords_numpy o uvw (map flatten ring))).
Proof.
  apply Forall_removelast. unfold global_coords_numpy.
  induction ring as [|p r IH]; cbn; constructor; [|exact IH].
  apply coplanar_global_flatten.
Qed.

Section Traced.

Context {PE : PolygonEngine} {SI : SpatialIndex}.
Variables (cfg : config) (a : Assembly).

Lemma face_pair_traced k n block f0 origin uvw p0 rst f1 t :
  k ∈ vertices a -> n ∈ vertices a -> k ≠ n ->
  blocks a !! k = Some block ->
  (f0, (origin, uvw)) ∈ block_frames block ->
  ¬ (det uvw == 0)%Q ->
  is_Some (blocks a !! n) ->
  traced a t ->
  traced a (final (face_pair cfg k n origin uvw p0 rst f1 t)).
Proof.
  intros Hk Hn Hkn Hblock Hf0 Hdet Hnbr Ht.
  destruct (face_pair_cases cfg k n origin uvw p0 rst f1)
    as [H|[[e H]|(p1 & inter & ring & _ & _ & _ & H)]];
    rewrite H; cbn [final]; try done.
  set (attr := interface_attr _ _ _ _).
  destruct Ht as [(Hv & Hb & Hdom) Hed].
  rewrite add_edge_vertices_eq
    by (apply in_vertex_elem_of; unfold vertices; by rewrite Hv).
  destruct (edge t !! k) as [nb|] eqn:Hnb; cbn [final]; [|by repeat split].
  split.
  - repeat split; [done..|]. cbn.
    rewrite dom_insert_lookup_L by done. exact Hdom.
  - intros u v d Hd.
    destruct (decide ((u, v) = (k, n))) as [[= -> ->]|Hne].
    + right. rewrite edge_data_set_edge_eq in Hd. injection Hd as <-.
      destruct (interface_attr_lookup
                  (area inter)
                  (global_coords_numpy origin uvw (map flatten ring))
                  origin uvw) as (_ & Hp & Ho & Hu).
      repeat split; [done..|].
      exists block, f0, origin, uvw. eexists.
      repeat split; [done..| | | |apply interface_points_coplanar];
        by apply update_lookup_new, update_lookup_new.
    + rewrite edge_data_set_edge_ne in Hd by done. by apply Hed.
Qed.

Lemma traced_in_vertex t k :
  traced a t -> k ∈ vertices a -> k ∈ vertices t.
Proof. intros [(Hv & _) _]. unfold vertices. by rewrite Hv. Qed.

Lemma candidate_traced index_key k block f0 origin uvw p0 j t :
  k ∈ vertices a -> Forall (fun n => n ∈ vertices a) index_key ->
  blocks a !! k = Some block ->
  (f0, (origin, uvw)) ∈ block_frames block ->
  ¬ (det uvw == 0)%Q ->
  traced a t ->
  traced a (final (candidate cfg index_key k origin uvw p0 j t)).
Proof.
  intros Hk Hidx Hblock Hf0 Hdet Ht. unfold candidate.
  destruct (index_key !! j) as [n|] eqn:Hj; [|done].
  assert (Hn : n ∈ vertices a).
  { rewrite Forall_forall in Hidx. apply Hidx.
    by eapply list_elem_of_lookup_2. }
  destruct (Z.eqb n k) eqn:Hnk; [done|]. apply Z.eqb_neq in Hnk.
  destruct (has_edge t k n); [done|].
  destruct (has_edge t n k); [done|].
  destruct (blocks t !! n) as [nbr|] eqn:Hnbr; [|done].
  destruct (neighbour_coords origin uvw nbr) as [rst|e]; [|done].
  apply (for_each_final_inv (traced a)); [|done].
  intros f1 t' _ Ht'. eapply face_pair_traced; try done.
  destruct Ht as [(_ & Hb & _) _]. rewrite <- Hb. by eexists.
Qed.

Lemma base_face_traced index_key k block nbrs f0 t :
  k ∈ vertices a -> Forall (fun n => n ∈ vertices a) index_key ->
  blocks a !! k = Some block ->
  f0 ∈ block_frames block ->
  traced a t ->
  traced a (final (base_face cfg index_key k block nbrs f0 t)).
Proof.
  intros Hk Hidx Hblock Hf0 Ht. unfold base_face.
  destruct f0 as [f0 [origin uvw]].
  destruct (face_coordinates block f0) as [xyz|e]; cbn [rbind]; [|done].
  unfold local_coords, solve.
  destruct (Qeq_bool (det uvw) 0) eqn:Hdet; [done|].
  destruct (Polygon _) as [p0|e]; [|done].
  apply (for_each_final_inv (traced a)); [|done].
  intros j t' _ Ht'. eapply candidate_traced; try done.
  intros Hz. apply Qeq_bool_iff in Hz. congruence.
Qed.

Lemma base_block_traced keys block_nnbrs k t :
  k ∈ vertices a -> Forall (fun n => n ∈ vertices a) keys ->
  traced a t ->
  traced a (final (base_block cfg keys block_nnbrs k t)).
Proof.
  intros Hk Hidx Ht. unfold base_block.
  destruct (key_index keys !! k) as [i|]; [|done].
  destruct (blocks t !! k) as [block|] eqn:Hblock; [|done].
  destruct (block_nnbrs !! i) as [[ds nbrs]|]; [|done].
  destruct (face_face cfg); [|done].
  apply (for_each_final_inv (traced a)); [|done].
  intros f0 t' Hf0 Ht'. eapply base_face_traced; try done.
  destruct Ht as [(_ & Hb & _) _]. by rewrite <- Hb.
Qed.

Lemma identify_traced : traced a (final (identify_interfaces a cfg)).
Proof.
  unfold identify_interfaces.
  destruct (rmap _ (vertices a)) as [blks|e]; [|apply traced_refl].
  destruct (rmap (vertex_coordinates a) (vertices a)) as [cloud|e];
    [|apply traced_refl].
  destruct (_find_nearest_neighbours cloud _) as [nnbrs|e];
    [|apply traced_refl].
  apply (for_each_final_inv (traced a)); [|apply traced_refl].
  intros k t Hk Ht. apply base_block_traced; try done.
  by apply Forall_forall.
Qed.

End Traced.

Lemma same_keys_consistent s s' :
  same_keys s s' -> max_int_key s' = max_int_key s ->
  consistent s -> consistent s'.
Proof.
  intros (Hv & Hb & Hdom) Hmax (Hnd & Hle & Hbl & Hed & Hco).
  assert (Hvs : vertices s' = vertices s) by (unfold vertices; by rewrite Hv).
  unfold consistent. rewrite Hvs, Hmax, Hb. split_and!; try done.
  - intros k. rewrite Hed, <- !elem_of_dom. by rewrite Hdom.
  - intros k Hk. destruct (Hco k Hk) as [c Hc]. exists c.
    unfold vertex_coordinates in *. by rewrite Hv.
Qed.

Lemma stack2_consistent : consistent Examples.stack2.
Proof.
  unfold Examples.stack2.
  apply add_block_consistent, add_block_consistent, consistent_init.
Qed.

(** X4.  A pass of [identify_interfaces], returned or raised, leaves the
    vertices, the block registry, the attribute defaults and the key
    counter as they were, keeps every edge there was with its data, and
    keeps a consistent assembly consistent. *)
Theorem identify_keeps_assembly {PE : PolygonEngine} {SI : SpatialIndex}
  (a : Assembly) (cfg : config) :
  same_frame a (final (identify_interfaces a cfg)) ∧
  (∀ u v d, edge_data a u v = Some d ->
            edge_data (final (identify_interfaces a cfg)) u v = Some d) ∧
  (consistent a -> consistent (final (identify_interfaces a cfg))).
Proof.
  destruct (identify_grows cfg a) as [Hf Hg].
  destruct (identify_traced cfg a) as [Hk _].
  split_and!.
  - exact Hf.
  - intros u v d Hd.
    destruct (Hg u v) as [->|(_ & Hnone & _)]; [done|congruence].
  - apply same_keys_consistent; [exact Hk|]. by destruct Hf as (_&_&_&_&?).
Qed.

Lemma identify_keeps_assembly_witness :
  consistent (final (Examples.run Examples.stack2 default_config)).
Proof.
  apply (proj2 (proj2 (@identify_keeps_assembly Convex.engine
           BruteForce.index Examples.stack2 default_config))).
  exact stack2_consistent.
Defined.



(** ** Lists of results *)

Lemma rmap_length {A B} (f : A -> result B) l ys :
  rmap f l = Ok ys -> length ys = length l.
Proof.
  revert ys. induction l as [|x r IH]; cbn; intros ys H.
  - by injection H as <-.
  - destruct (f x) as [y|]; cbn in H; [|done].
    destruct (rmap f r) as [ys'|]; cbn in H; [|done].
    injection H as <-. cbn. by rewrite (IH ys').
Qed.

(** ** The configuration *)

(** X7.  [nmax] is clamped to the number of blocks: any two values that
    are not below the number of vertices give the same pass. *)
Theorem nmax_is_clamped {PE : PolygonEngine} {SI : SpatialIndex}
  (a : Assembly) (cfg : config) (n1 n2 : Z) :
  (Z.of_nat (length (vertices a)) <= n1)%Z ->
  (Z.of_nat (length (vertices a)) <= n2)%Z ->
  identify_interfaces a (set_nmax n1 cfg)
  = identify_interfaces a (set_nmax n2 cfg).
Proof.
  intros H1 H2. unfold identify_interfaces. cbn [nmax set_nmax].
  destruct (rmap _ (vertices a)) as [blks|e] eqn:Hblks; [|done].
  apply rmap_length in Hblks. rewrite Hblks.
  by rewrite !Z.min_r by lia.
Qed.

Lemma nmax_is_clamped_witness :
  Examples.run Examples.stack2 (set_nmax 2 default_config)
  = Examples.run Examples.stack2 (set_nmax 10 default_config).
Proof.
  apply (@nmax_is_clamped Convex.engine BruteForce.index Examples.stack2
           default_config 2 10).
  - vm_compute. discriminate.
  - vm_compute. discriminate.
Defined.

(** X8.  With [face_face] off the pass writes nothing: the assembly is
    left as it was.  The flags [face_edge] and [face_vertex] are never
    read. *)
Theorem only_face_face_is_tested {PE : PolygonEngine} {SI : SpatialIndex}
  (a : Assembly) (cfg : config) :
  (face_face cfg = false -> final (identify_interfaces a cfg) = a) ∧
  (∀ fe fv,
     identify_interfaces a (set_face_edge_vertex fe fv cfg)
     = identify_interfaces a cfg).
Proof.
  split; [|reflexivity].
  intros Hoff. unfold identify_interfaces.
  destruct (rmap _ (vertices a)) as [blks|e]; [|done].
  destruct (rmap (vertex_coordinates a) (vertices a)) as [cloud|e]; [|done].
  destruct (_find_nearest_neighbours cloud _) as [nnbrs|e]; [|done].
  apply (for_each_final_inv (fun t => t = a)); [|done].
  intros k ? _ ->. unfold base_block. rewrite Hoff.
  destruct (key_index (vertices a) !! k) as [i|]; [|done].
  destruct (blocks a !! k) as [block|]; [|done].
  by destruct (_ !! i) as [[ds nbrs]|].
Qed.

Lemma only_face_face_is_tested_witness :
  final (Examples.run Examples.stack2 Examples.no_face_face)
  = Examples.stack2.
Proof.
  apply (proj1 (@only_face_face_is_tested Convex.engine BruteForce.index
                  Examples.stack2 Examples.no_face_face)).
  reflexivity.
Defined.

(** X9.  An assembly of a single block gets no edge, whatever the spatial
    index returns: the only candidate it can name is the block itself,
    which is skipped. *)
Theorem single_block_has_no_interface {PE : PolygonEngine}
  {SI : SpatialIndex} (a : Assembly) (cfg : config) (k : Z) :
  vertices a = [k] ->
  final (identify_interfaces a cfg) = a.
Proof.
  intros Hv. unfold identify_interfaces. rewrite Hv.
  destruct (rmap _ [k]) as [blks|e]; [|done].
  destruct (rmap (vertex_coordinates a) [k]) as [cloud|e]; [|done].
  destruct (_find_nearest_neighbours cloud _) as [nnbrs|e]; [|done].
  apply (for_each_final_inv (fun t => t = a)); [|done].
  intros k' ? Hk' ->. apply list_elem_of_singleton in Hk'. subst k'.
  unfold base_block.
  destruct (key_index [k] !! k) as [i|]; [|done].
  destruct (blocks a !! k) as [block|]; [|done].
  destruct (_ !! i) as [[ds nbrs]|]; [|done].
  destruct (face_face cfg); [|done].
  apply (for_each_final_inv (fun t => t = a)); [|done].
  intros [f0 [origin uvw]] ? _ ->. unfold base_face.
  destruct (rbind _ _) as [rst0|e]; [|done].
  destruct (Polygon rst0) as [p0|e]; [|done].
  apply (for_each_final_inv (fun t => t = a)); [|done].
  intros j ? _ ->. unfold candidate.
  destruct j as [|j]; cbn; [|done].
  by rewrite Z.eqb_refl.
Qed.

Lemma single_block_has_no_interface_witness :
  final (Examples.run Examples.single default_config) = Examples.single.
Proof.
  apply (@single_block_has_no_interface Convex.engine BruteForce.index
           Examples.single default_config 0%Z).
  reflexivity.
Defined.

(** ** The face loop *)

Lemma for_each_app_returned {X} (body : X -> Assembly -> outcome) l1 l2 s s' :
  for_each body (l1 ++ l2) s = Returned s' ->
  ∃ s1, for_each body l1 s = Returned s1 ∧ for_each body l2 s1 = Returned s'.
Proof.
  revert s. induction l1 as [|x r IH]; intros s H; cbn in *.
  - by exists s.
  - destruct (body x s) as [t|e t]; [|done]. by apply IH.
Qed.

(** The attributes given to [add_edge] are found on the edge. *)
Lemma add_edge_returned_lookup a u v attr a' i x :
  add_edge a u v (Some attr) ∅ = Returned a' ->
  attr !! i = Some x ->
  ∃ d, edge_data a' u v = Some d ∧ d !! i = Some x.
Proof.
  unfold add_edge.
  set (a1 := if in_vertex a u then _ else _).
  set (a2 := if in_vertex a1 v then _ else _).
  destruct (edge a2 !! u) as [nb|]; [|discriminate].
  intros [= <-] Hi. eexists. rewrite edge_data_set_edge_eq.
  split; [reflexivity|].
  apply update_lookup_new, update_lookup_new.
  unfold or_empty; cbn [default from_option id].
  by rewrite update_empty_r.
Qed.

(** X10.  When several faces of a neighbour are accepted against the same
    base face, the last one decides: after the face loop has returned,
    the edge carries the area and the points of the intersection with the
    last accepted face, and nothing is kept of the earlier ones. *)
Theorem last_accepted_face_wins {PE : PolygonEngine} (cfg : config)
  (k n : Z) (origin : vec) (uvw : basis) (p0 : geom) (rst : gmap Z vec)
  (pre post : list (Z * list Z)) (f1 : Z * list Z) (rst1 : list vec)
  (p1 inter : geom) (ring : list vec) (s s' : Assembly) :
  rmap (fun key => of_option (rst !! key)) (snd f1) = Ok rst1 ->
  off_plane (tmax cfg) rst1 = false ->
  Polygon rst1 = Ok p1 ->
  ¬ (area p1 == 0)%Q ->
  intersects p0 p1 = Ok true ->
  intersection p0 p1 = Ok inter ->
  (amin cfg <= area inter)%Q ->
  exterior_coords inter = Ok ring ->
  (∀ g t, g ∈ post ->
          face_pair cfg k n origin uvw p0 rst g t = Returned t) ->
  for_each (face_pair cfg k n origin uvw p0 rst) (pre ++ f1 :: post) s
    = Returned s' ->
  ∃ d, edge_data s' k n = Some d ∧
       d !! "interface_size" = Some (VNum (area inter)) ∧
       d !! "interface_points"
       = Some (VPoints (removelast
                 (global_coords_numpy origin uvw (map flatten ring)))).
Proof.
  intros Hrst Hoff Hp1 Har Hint Hinter Hle Hring Hpost Hrun.
  apply for_each_app_returned in Hrun as (s1 & _ & Hrun).
  cbn [for_each] in Hrun.
  rewrite (face_pair_intersecting _ _ _ _ _ _ _ _ _ _ _ _
             Hrst Hoff Hp1 Har Hint Hinter), Hring in Hrun.
  apply Qle_bool_iff in Hle. rewrite Hle in Hrun.
  destruct (add_edge s1 k n _ ∅) as [s2|e s2] eqn:Hadd; [|done].
  rewrite for_each_skip in Hrun by (intros g Hg; by apply Hpost).
  injection Hrun as <-.
  destruct (add_edge_returned_lookup _ _ _ _ _ "interface_size" _ Hadd
              (interface_attr_size _ _ _ _)) as (d & Hd & Hsize).
  destruct (add_edge_returned_lookup _ _ _ _ _ "interface_points" _ Hadd
              (proj1 (proj2 (interface_attr_lookup _ _ _ _))))
    as (d' & Hd' & Hpts).
  exists d. split; [done|]. split; [done|]. congruence.
Qed.

(** The upper cube with its bottom face split: the strip, of area 1/4, is
    accepted first and written; the rest of the face, of area 3/4, is
    accepted next, and the edge ends with its area and points. *)
Lemma last_accepted_face_wins_witness :
  (edge_data
     (final (for_each
        (@face_pair Convex.engine default_config 0 1 Examples.top_origin
           Examples.top_uvw Examples.top_p0 Examples.split_rst)
        [Examples.split_strip] Examples.stack2)) 0 1
   ≫= (fun d : attrs => d !! "interface_size")) = Some (VNum (1 # 4)) ∧
  (@area Convex.engine Examples.split_rest_inter == 3 # 4)%Q ∧
  ∃ d,
    edge_data
      (final (for_each
         (@face_pair Convex.engine default_config 0 1 Examples.top_origin
            Examples.top_uvw Examples.top_p0 Examples.split_rst)
         (block_face Examples.cube1_split) Examples.stack2)) 0 1 = Some d ∧
    d !! "interface_size"
    = Some (VNum (@area Convex.engine Examples.split_rest_inter)) ∧
    d !! "interface_points"
    = Some (VPoints (removelast
              (global_coords_numpy Examples.top_origin Examples.top_uvw
                 (map flatten Examples.split_rest_ring)))).
Proof.
  split; [vm_compute; reflexivity|]. split; [vm_compute; reflexivity|].
  apply (@last_accepted_face_wins Convex.engine default_config 0%Z 1%Z
           Examples.top_origin Examples.top_uvw Examples.top_p0
           Examples.split_rst [Examples.split_strip]
           (tail (block_face Examples.cube1))
           Examples.split_rest Examples.split_rest_rst1
           Examples.split_rest_p1 Examples.split_rest_inter
           Examples.split_rest_ring Examples.stack2).
  - vm_compute. reflexivity.
  - vm_compute. reflexivity.
  - vm_compute. reflexivity.
  - intros H. vm_compute in H. discriminate H.
  - vm_compute. reflexivity.
  - vm_compute. reflexivity.
  - vm_compute. discriminate.
  - vm_compute. reflexivity.
  - intros g t Hg. cbn in Hg.
    repeat (apply elem_of_cons in Hg as [->|Hg]; [vm_compute; reflexivity|]).
    by apply elem_of_nil in Hg.
  - vm_compute. reflexivity.
Defined.


(** ** More on the examples *)

Lemma single_consistent : consistent Examples.single.
Proof. apply add_block_consistent, consistent_init. Qed.

(** A second cube added with an [x] among its keyword attributes still
    sits at its centroid. *)
Lemma add_block_registers_witness :
  let r := add_block Examples.single Examples.cube1
             (Some Examples.name_attr) Examples.misplaced_kwattr in
  fst r = 1%Z ∧
  blocks (snd r) !! fst r = Some Examples.cube1 ∧
  vertex_coordinates (snd r) (fst r)
  = Ok (block_centroid Examples.cube1).
Proof.
  destruct (add_block_registers Examples.single Examples.cube1
              (Some Examples.name_attr) Examples.misplaced_kwattr
              single_consistent)
    as (Hk & _ & _ & Hb & Hc & _).
  cbn zeta. split; [exact Hk|]. split; [exact Hb|exact Hc].
Defined.

Lemma add_support_registers_witness :
  let r := add_support Examples.single Examples.cube1
             (Some Examples.name_attr) Examples.misplaced_kwattr in
  fst r = 1%Z ∧
  blocks (snd r) !! fst r = Some Examples.cube1 ∧
  vertex_coordinates (snd r) (fst r)
  = Ok (block_centroid Examples.cube1).
Proof.
  destruct (add_support_registers Examples.single Examples.cube1
              (Some Examples.name_attr) Examples.misplaced_kwattr
              single_consistent)
    as (Hk & _ & _ & Hb & Hc & _).
  cbn zeta. split; [exact Hk|]. split; [exact Hb|exact Hc].
Defined.

(** ** Missing blocks *)

Lemma rmap_of_option_None {A B} (g : A -> option B) l x :
  x ∈ l -> g x = None ->
  rmap (fun y => of_option (g y)) l = Error KeyError.
Proof.
  intros Hx Hg. induction l as [|y r IH]; [by apply elem_of_nil in Hx|].
  cbn. apply elem_of_cons in Hx as [<-|Hx].
  - by rewrite Hg.
  - destruct (g y); cbn; [|done]. by rewrite (IH Hx).
Qed.

(** X12.  A vertex without a block in the registry makes
    [identify_interfaces] raise [KeyError] before any neighbour is
    looked for: the assembly is left as it was. *)
Theorem missing_block_raises {PE : PolygonEngine} {SI : SpatialIndex}
  (a : Assembly) (cfg : config) (k : Z) :
  k ∈ vertices a -> blocks a !! k = None ->
  identify_interfaces a cfg = Raised KeyError a.
Proof.
  intros Hk Hnone. unfold identify_interfaces.
  by rewrite (rmap_of_option_None (fun key => blocks a !! key) _ k Hk Hnone).
Qed.

Lemma missing_block_raises_witness :
  Examples.run Examples.unregistered default_config
  = Raised KeyError Examples.unregistered.
Proof.
  apply (@missing_block_raises Convex.engine BruteForce.index
           Examples.unregistered default_config 1%Z).
  - apply list_elem_of_further, list_elem_of_here.
  - vm_compute. reflexivity.
Defined.
